(** * bucket2http: path resolution over a flat object store

    A shallow embedding of [main.go]: the request handler, the file and
    directory resolvers and the size formatter, together with the pieces of
    Go's [strings], [path], [fmt] and [net/http] packages they call.

    Go strings are byte sequences and are modelled by [string] (a list of
    8-bit [ascii]); [int64] values are modelled by [Z] with the wrap-around
    written out; [float64] values by the IEEE 754 binary64 instance of
    [SpecFloat]. *)

From Stdlib Require Import ZArith Lia Bool List String Ascii.
From Stdlib Require Import Numbers.DecimalString.
From Stdlib Require Import Floats.SpecFloat.
From Equations Require Import Equations.
Import ListNotations.

Open Scope string_scope.
Open Scope Z_scope.

(** ** Go's [strings] package *)

Module strings.

(** [strings.HasPrefix(s, prefix)] *)
Definition HasPrefix (s prefix : string) : bool := String.prefix prefix s.

(** [strings.HasSuffix(s, suffix)]:
    [len(s) >= len(suffix) && s[len(s)-len(suffix):] == suffix] *)
Definition HasSuffix (s suffix : string) : bool :=
  (String.length suffix <=? String.length s)%nat &&
  String.eqb
    (substring (String.length s - String.length suffix) (String.length suffix) s)
    suffix.

(** [strings.TrimPrefix(s, prefix)]: at most one copy of [prefix] is removed. *)
Definition TrimPrefix (s prefix : string) : string :=
  if HasPrefix s prefix
  then substring (String.length prefix) (String.length s - String.length prefix) s
  else s.

(** [strings.TrimSuffix(s, suffix)] *)
Definition TrimSuffix (s suffix : string) : string :=
  if HasSuffix s suffix
  then substring 0 (String.length s - String.length suffix) s
  else s.

(** Lower-casing of one byte of the ASCII range. *)
Definition lower_byte (c : ascii) : ascii :=
  let n := nat_of_ascii c in
  if ((65 <=? n) && (n <=? 90))%nat then ascii_of_nat (n + 32) else c.

(** [strings.ToLower(s)] on the ASCII range: the letters [A]-[Z] are mapped
    to [a]-[z], every other byte is kept. *)
Fixpoint ToLower (s : string) : string :=
  match s with
  | EmptyString => EmptyString
  | String c s' => String (lower_byte c) (ToLower s')
  end.

(** [strings.LastIndexByte(s, c)]: the index of the last [c] in [s], [-1]
    when there is none. *)
Fixpoint LastIndexByte_from (i : Z) (s : string) (c : ascii) (found : Z) : Z :=
  match s with
  | EmptyString => found
  | String d s' =>
      LastIndexByte_from (i + 1) s' c (if Ascii.eqb d c then i else found)
  end.

Definition LastIndexByte (s : string) (c : ascii) : Z :=
  LastIndexByte_from 0 s c (-1).

(** [strings.Contains] for a one-byte substring. *)
Fixpoint ContainsByte (s : string) (c : ascii) : bool :=
  match s with
  | EmptyString => false
  | String d s' => Ascii.eqb d c || ContainsByte s' c
  end.

End strings.

(** Slices [s[:i]] and [s[i:]] for an index held in an [int]. *)
Definition slice_to (s : string) (i : Z) : string := substring 0 (Z.to_nat i) s.
Definition slice_from (s : string) (i : Z) : string :=
  substring (Z.to_nat i) (String.length s - Z.to_nat i) s.

Definition byte_at (s : string) (i : nat) : ascii :=
  match String.get i s with Some c => c | None => zero end.

(** ** Go's [path] package *)

Module path.

(** The inner loop of the [..] case of [Clean]:
    [for out.w > dotdot && out.index(out.w) != '/' { out.w-- }]. *)
Fixpoint backtrack (buf : string) (dotdot w : nat) : nat :=
  match w with
  | O => O
  | S w' =>
      if (dotdot <? w)%nat && negb (Ascii.eqb (byte_at buf w) "/")
      then backtrack buf dotdot w'
      else w
  end.

(** The bytes of the path element at the head of [s], and what follows it:
    [for ; r < n && path[r] != '/'; r++ { out.append(path[r]) }]. *)
Fixpoint elem_bytes (s : string) : string :=
  match s with
  | EmptyString => EmptyString
  | String c s' => if Ascii.eqb c "/" then EmptyString else String c (elem_bytes s')
  end.

Fixpoint elem_rest (s : string) : string :=
  match s with
  | EmptyString => EmptyString
  | String c s' => if Ascii.eqb c "/" then s else elem_rest s'
  end.

Lemma elem_rest_length (s : string) :
  (String.length (elem_rest s) <= String.length s)%nat.
Proof.
  induction s as [|c s IH]; simpl; [lia|].
  destruct (Ascii.eqb c "/"); simpl; lia.
Qed.

(** Does the input start a new element ([r == n]) or a slash? *)
Definition at_elem_end (s : string) : bool :=
  match s with
  | EmptyString => true
  | String c _ => Ascii.eqb c "/"
  end.

Definition tail (s : string) : string :=
  match s with
  | EmptyString => EmptyString
  | String _ s' => s'
  end.

Lemma tail_length (s : string) : (String.length (tail s) <= String.length s)%nat.
Proof. destruct s; simpl; lia. Qed.

(** The main loop of [path.Clean]: [rest] is [path[r:]], [out] holds the
    [out.w] bytes written so far, [dotdot] is the index where [..] must
    stop. *)
Equations Clean_loop (rooted : bool) (rest out : string) (dotdot : nat) : string
  by wf (String.length rest) lt :=
  Clean_loop rooted EmptyString out dotdot := out;
  Clean_loop rooted (String c rest') out dotdot :=
    if Ascii.eqb c "/" then
      (* empty path element *)
      Clean_loop rooted rest' out dotdot
    else if Ascii.eqb c "." && at_elem_end rest' then
      (* . element *)
      Clean_loop rooted rest' out dotdot
    else if Ascii.eqb c "." && Ascii.eqb (byte_at rest' 0) "."
            && at_elem_end (tail rest') then
      (* .. element: remove to last / *)
      if (dotdot <? String.length out)%nat then
        let w := backtrack out dotdot (String.length out - 1) in
        Clean_loop rooted (tail rest') (substring 0 w out) dotdot
      else if negb rooted then
        let out' := (if (0 <? String.length out)%nat then out ++ "/" else out) ++ ".." in
        Clean_loop rooted (tail rest') out' (String.length out')
      else
        Clean_loop rooted (tail rest') out dotdot
    else
      (* real path element: add slash if needed, copy element *)
      let out' :=
        if (rooted && negb (String.length out =? 1)%nat)
           || (negb rooted && negb (String.length out =? 0)%nat)
        then out ++ "/" else out in
      Clean_loop rooted (elem_rest rest') (out' ++ String c (elem_bytes rest')) dotdot.
Next Obligation. pose proof (tail_length rest'); lia. Defined.
Next Obligation. pose proof (tail_length rest'); lia. Defined.
Next Obligation. pose proof (tail_length rest'); lia. Defined.
Next Obligation. pose proof (elem_rest_length rest'); lia. Defined.

(** [path.Clean(path)] *)
Definition Clean (path : string) : string :=
  match path with
  | EmptyString => "."
  | String c rest =>
      let rooted := Ascii.eqb c "/" in
      let out :=
        if rooted then Clean_loop true rest "/" 1
        else Clean_loop false path "" 0 in
      (* Turn empty string into "." *)
      if (String.length out =? 0)%nat then "." else out
  end.

(** [path.Split(path)]: [path[:i+1], path[i+1:]] at the last slash. *)
Definition Split (path : string) : string * string :=
  let i := strings.LastIndexByte path "/" in
  (slice_to path (i + 1), slice_from path (i + 1)).

(** [path.Dir(path)] *)
Definition Dir (path : string) : string := Clean (fst (Split path)).

(** Strip trailing slashes:
    [for len(path) > 0 && path[len(path)-1] == '/' { path = path[0:len(path)-1] }],
    the result being [path[0:n]]. *)
Fixpoint strip_slashes (n : nat) (path : string) : string :=
  match n with
  | O => EmptyString
  | S n' =>
      if Ascii.eqb (byte_at path n') "/" then strip_slashes n' path
      else substring 0 n path
  end.

(** [path.Base(path)] *)
Definition Base (path : string) : string :=
  if String.eqb path "" then "."
  else
    let path := strip_slashes (String.length path) path in
    let i := strings.LastIndexByte path "/" in
    let path := if (0 <=? i)%Z then slice_from path (i + 1) else path in
    if String.eqb path "" then "/" else path.

(** [path.Ext(path)]: the loop
    [for i := len(path)-1; i >= 0 && path[i] != '/'; i--], with [n = i+1]. *)
Fixpoint Ext_from (n : nat) (path : string) : string :=
  match n with
  | O => EmptyString
  | S i =>
      if Ascii.eqb (byte_at path i) "/" then EmptyString
      else if Ascii.eqb (byte_at path i) "."
           then substring i (String.length path - i) path
           else Ext_from i path
  end.

Definition Ext (path : string) : string := Ext_from (String.length path) path.

End path.

(** ** Machine integers and floats *)

(** Wrap-around of [int64] arithmetic. *)
Definition wrap64 (z : Z) : Z := (z + 2 ^ 63) mod 2 ^ 64 - 2 ^ 63.

Definition int64_range (z : Z) : Prop := - 2 ^ 63 <= z < 2 ^ 63.

Module float64.

(** IEEE 754 binary64: 53 bits of precision, exponents below 1024. *)
Definition prec : Z := 53.
Definition emax : Z := 1024.

(** [float64(z)]: conversion of an integer, rounding to nearest even. *)
Definition of_int (z : Z) : spec_float := binary_normalize prec emax z 0 false.

(** [x / y] on [float64]. *)
Definition div (x y : spec_float) : spec_float := SFdiv prec emax x y.

End float64.

(** ** Go's [fmt] verbs used by the program *)

Module fmt.

(** [%d] of an integer. *)
Definition d (z : Z) : string := NilZero.string_of_int (Z.to_int z).

(** The integer nearest to [n / d] for [0 < d], ties going to the even one. *)
Definition round_half_even (n d : Z) : Z :=
  let q := n / d in
  let r := n mod d in
  match 2 * r ?= d with
  | Lt => q
  | Gt => q + 1
  | Eq => if Z.even q then q else q + 1
  end.

(** The number of tenths nearest to [m * 2^e]. *)
Definition tenths (m : positive) (e : Z) : Z :=
  match e with
  | Zneg p => round_half_even (10 * Zpos m) (2 ^ Zpos p)
  | _ => 10 * Zpos m * 2 ^ e
  end.

(** [%.1f] of a [float64]: the decimal expansion of the exact value,
    rounded to one digit after the point (half to even). *)
Definition f1 (x : spec_float) : string :=
  match x with
  | S754_nan => "NaN"
  | S754_infinity s => if s then "-Inf" else "+Inf"
  | S754_zero s => (if s then "-" else "") ++ "0.0"
  | S754_finite s m e =>
      let t := tenths m e in
      (if s then "-" else "") ++ d (t / 10) ++ "." ++ d (t mod 10)
  end.

End fmt.

(** ** [formatSize] *)

Definition unit : Z := 1024.

Lemma formatSize_loop_decreases (n : Z) :
  n >= unit -> (Z.to_nat (Z.log2 (n ÷ unit)) < Z.to_nat (Z.log2 n))%nat.
Proof.
  unfold unit; intros H.
  rewrite Z.quot_div_nonneg by lia.
  change 1024 with (2 ^ 10) at 1.
  rewrite <- Z.shiftr_div_pow2, Z.log2_shiftr by lia.
  assert (10 <= Z.log2 n) by (change 10 with (Z.log2 1024); apply Z.log2_le_mono; lia).
  lia.
Qed.

(** The loop [for n := size / unit; n >= unit; n /= unit { div *= unit; exp++ }]
    from the state [(n, div, exp)] on; it yields the final [(div, exp)]. *)
Equations formatSize_loop (n div : Z) (exp : nat) : Z * nat
  by wf (Z.to_nat (Z.log2 n)) lt :=
  formatSize_loop n div exp with Z_ge_dec n unit := {
    | left _ => formatSize_loop (n ÷ unit) (wrap64 (div * unit)) (S exp)
    | right _ => (div, exp) }.
Next Obligation. apply formatSize_loop_decreases; assumption. Defined.

(** ["KMGTPE"[exp]]; the index is in range for every [int64] size (see
    [formatSize_loop_spec]). *)
Definition unit_letter (exp : nat) : ascii := byte_at "KMGTPE" exp.

Definition formatSize (size : Z) : string :=
  if size <? unit then fmt.d size ++ " B"
  else
    let '(div, exp) := formatSize_loop (size ÷ unit) unit 0 in
    fmt.f1 (float64.div (float64.of_int size) (float64.of_int div))
      ++ " " ++ String (unit_letter exp) "B".

(** ** The object store client (minio-go), as the program uses it *)

Module minio.

(** [minio.ErrorResponse]; only [Code] is inspected by the program. *)
Record ErrorResponse := { Code : string; Message : string }.

(** A Go [error] value: a [minio.ErrorResponse] or any other error. *)
Inductive error :=
| ErrResponse (r : ErrorResponse)
| ErrOther (msg : string).

(** [minio.ToErrorResponse(err)]: the zero [ErrorResponse] for an error of
    another type. *)
Definition ToErrorResponse (err : error) : ErrorResponse :=
  match err with
  | ErrResponse r => r
  | ErrOther _ => {| Code := ""; Message := "" |}
  end.

(** [time.Time], counted from Go's zero time; [time.Time{}] is [0]. *)
Definition Time := Z.
Definition Time_zero : Time := 0.

(** The fields of [minio.ObjectInfo] the program reads. [Err] is set on the
    items of a listing that report a failure. *)
Record ObjectInfo := {
  Key : string;
  Size : Z;
  LastModified : Time;
  ContentType : string;
  StorageClass : string;
  Err : option error
}.

(** [*minio.Object] as a reader: it yields [obj_bytes] and then ends, with
    [obj_err] when the read fails at that point. *)
Record Object := { obj_bytes : string; obj_err : option error }.

(** The three calls of [*minio.Client] the program makes. [StatObject]
    returns the Go pair [(ObjectInfo, error)], of which the program reads
    the first component before it tests the second. [ListObjects] gives
    what the returned channel delivers until it is closed. *)
Record Client := {
  StatObject : string -> string -> ObjectInfo * option error;
  GetObject : string -> string -> Object + error;
  ListObjects : string -> string -> bool -> list ObjectInfo
}.

End minio.

Import minio.

(** ** The view model *)

Inductive Icon := IconDir | IconFile.

Record DirEntry := {
  URL : string;
  Name : string;
  Size : string;
  ModTime : Time;
  IsDir : bool;
  Icon_ : Icon
}.

(** ** The world a request runs in *)

(** What has been written to the response body: raw bytes, or the directory
    template executed on [(Path, Entries)]. *)
Inductive Chunk :=
| Bytes (data : string)
| Listing (Path : string) (Entries : list DirEntry).

(** [http.ResponseWriter]: the header map, the status once it is committed,
    the body written so far, and the error every write fails with when the
    connection is broken. *)
Record ResponseWriter := {
  rw_header : list (string * string);
  rw_status : option Z;
  rw_body : list Chunk;
  rw_broken : option error
}.

(** The lines the program logs, one constructor per [log.Printf]. *)
Inductive LogLine :=
| LogStatFailed (e : error)       (* line 158 *)
| LogGetFailed (e : error)        (* line 165 *)
| LogWriteFailed (e : error)      (* line 176 *)
| LogListFailed (e : error)       (* line 215 *)
| LogTemplateFailed (e : error).  (* line 265 *)

(** The calls made on the store client, in order. *)
Inductive StoreCall :=
| CallStatObject (bucket key : string)
| CallGetObject (bucket key : string)
| CallListObjects (bucket prefix : string) (recursive : bool).

Record World := {
  resp : ResponseWriter;
  logs : list LogLine;
  calls : list StoreCall
}.

(** A state monad over [World]. *)
Definition M (A : Type) : Type := World -> A * World.

Definition ret {A} (a : A) : M A := fun s => (a, s).

Definition bind {A B} (m : M A) (k : A -> M B) : M B :=
  fun s => let '(a, s') := m s in k a s'.

Declare Scope monad_scope.
Delimit Scope monad_scope with monad.
Notation "x <- m ;; k" := (bind m (fun x => k))
  (at level 61, m at next level, right associativity) : monad_scope.
Notation "m ;; k" := (bind m (fun _ => k))
  (at level 61, right associativity) : monad_scope.
Open Scope monad_scope.

Definition with_resp (f : ResponseWriter -> ResponseWriter) : M Datatypes.unit :=
  fun s => (tt, {| resp := f (resp s); logs := logs s; calls := calls s |}).

(** [log.Printf] *)
Definition log_Printf (l : LogLine) : M Datatypes.unit :=
  fun s => (tt, {| resp := resp s; logs := (logs s ++ [l])%list; calls := calls s |}).

Definition record_call (c : StoreCall) : M Datatypes.unit :=
  fun s => (tt, {| resp := resp s; logs := logs s; calls := (calls s ++ [c])%list |}).

(** [w.Header().Del(key)] and [w.Header().Set(key, value)] *)
Definition Header_Del (key : string) (h : list (string * string)) :=
  filter (fun kv => negb (String.eqb (fst kv) key)) h.

Definition Header_Set (key value : string) : M Datatypes.unit :=
  with_resp (fun w =>
    {| rw_header := (Header_Del key (rw_header w) ++ [(key, value)])%list;
       rw_status := rw_status w;
       rw_body := rw_body w;
       rw_broken := rw_broken w |}).

(** [w.WriteHeader(code)]: the first status wins. *)
Definition WriteHeader (code : Z) : M Datatypes.unit :=
  with_resp (fun w =>
    {| rw_header := rw_header w;
       rw_status := match rw_status w with Some c => Some c | None => Some code end;
       rw_body := rw_body w;
       rw_broken := rw_broken w |}).

(** [w.Write(data)]: fails on a broken connection; otherwise commits status
    200 if none was set and appends to the body. *)
Definition rw_Write (data : Chunk) : M (option error) :=
  fun s =>
    match rw_broken (resp s) with
    | Some e => (Some e, s)
    | None => (WriteHeader 200 ;;
               with_resp (fun w =>
                 {| rw_header := rw_header w;
                    rw_status := rw_status w;
                    rw_body := (rw_body w ++ [data])%list;
                    rw_broken := rw_broken w |}) ;;
               ret None) s
    end.

(** [io.Copy(w, object)]: the bytes the object yields are written to the
    response; the first error of either side is returned. *)
Definition io_Copy (object : Object) : M (option error) :=
  if String.eqb (obj_bytes object) "" then ret (obj_err object)
  else
    werr <- rw_Write (Bytes (obj_bytes object)) ;;
    match werr with
    | Some e => ret (Some e)
    | None => ret (obj_err object)
    end.

(** [tmpl.Execute(w, data)]: the rendered listing is written to the response. *)
Definition tmpl_Execute (Path : string) (Entries : list DirEntry) : M (option error) :=
  rw_Write (Listing Path Entries).

(** [http.Error(w, error, code)] *)
Definition http_Error (error : string) (code : Z) : M Datatypes.unit :=
  with_resp (fun w =>
    {| rw_header := Header_Del "Content-Length" (rw_header w);
       rw_status := rw_status w;
       rw_body := rw_body w;
       rw_broken := rw_broken w |}) ;;
  Header_Set "Content-Type" "text/plain; charset=utf-8" ;;
  Header_Set "X-Content-Type-Options" "nosniff" ;;
  WriteHeader code ;;
  _ <- with_resp (fun w =>
    match rw_broken w with
    | Some _ => w
    | None =>
        {| rw_header := rw_header w;
           rw_status := rw_status w;
           rw_body := (rw_body w ++ [Bytes (error ++ String "010" "")])%list;
           rw_broken := rw_broken w |}
    end) ;;
  ret tt.

Definition StatusNotFound : Z := 404.

(** The status the client receives: the committed one, 200 when the handler
    returns without committing any. *)
Definition final_status (w : ResponseWriter) : Z :=
  match rw_status w with Some c => c | None => 200 end.

(** ** The program *)

(** [bucket = *flag.String("bucket", "mirror", ...)]: the flag is read when the
    package is initialised, before [flag.Parse], so it holds its default. *)
Definition bucket : string := "mirror".

Definition getContentType (key : string) : string :=
  let ext := strings.ToLower (path.Ext key) in
  if String.eqb ext ".html" || String.eqb ext ".htm" then "text/html"
  else if String.eqb ext ".css" then "text/css"
  else if String.eqb ext ".js" then "application/javascript"
  else if String.eqb ext ".png" then "image/png"
  else if String.eqb ext ".jpg" || String.eqb ext ".jpeg" then "image/jpeg"
  else if String.eqb ext ".gif" then "image/gif"
  else if String.eqb ext ".pdf" then "application/pdf"
  else "application/octet-stream".

Definition getFileIcon (filename : string) : Icon :=
  let ext := strings.ToLower filename in
  if String.eqb ext "dir" then IconDir else IconFile.

(** The store calls, recorded in the world. *)
Definition call_StatObject (c : Client) (key : string) : M (ObjectInfo * option error) :=
  record_call (CallStatObject bucket key) ;;
  ret (StatObject c bucket key).

Definition call_GetObject (c : Client) (key : string) : M (Object + error) :=
  record_call (CallGetObject bucket key) ;;
  ret (GetObject c bucket key).

Definition call_ListObjects (c : Client) (prefix : string) (recursive : bool)
  : M (list ObjectInfo) :=
  record_call (CallListObjects bucket prefix recursive) ;;
  ret (ListObjects c bucket prefix recursive).

Definition dirContentType : string := "application/x-directory".

(** [handleFile(w, key)] *)
Definition handleFile (minioClient : Client) (key : string) : M bool :=
  r <- call_StatObject minioClient key ;;
  let '(objInfo, err) := r in
  if String.eqb (ContentType objInfo) dirContentType then ret false
  else
    match err with
    | Some e =>
        if String.eqb (Code (ToErrorResponse e)) "NoSuchKey" then ret false
        else log_Printf (LogStatFailed e) ;; ret false
    | None =>
        got <- call_GetObject minioClient key ;;
        match got with
        | inr e => log_Printf (LogGetFailed e) ;; ret false
        | inl object =>
            Header_Set "Content-Type" (getContentType key) ;;
            Header_Set "Content-Length" (fmt.d (minio.Size objInfo)) ;;
            cerr <- io_Copy object ;;
            match cerr with
            | Some e => log_Printf (LogWriteFailed e)
            | None => ret tt
            end ;;
            ret true
        end
    end.

(** The prefix [handleDirectory] lists: a slash is appended when missing, and
    ["/"] stands for the bucket root. *)
Definition normalizePrefix (prefix : string) : string :=
  let prefix := if negb (strings.HasSuffix prefix "/") then prefix ++ "/" else prefix in
  if String.eqb prefix "/" then "" else prefix.

(** The entry appended for the parent directory (lines 200-210). *)
Definition parentEntry (prefix : string) : DirEntry :=
  let parent := path.Dir (strings.TrimSuffix prefix "/") ++ "/" in
  {| URL := "/" ++ parent;
     Name := "..";
     Size := "-";
     ModTime := Time_zero;
     IsDir := true;
     Icon_ := getFileIcon "dir" |}.

(** The entry appended for a sub-directory (lines 228-235). *)
Definition dirEntry (obj : ObjectInfo) : DirEntry :=
  {| URL := "/" ++ Key obj;
     Name := path.Base (Key obj);
     Size := "-";
     ModTime := Time_zero;
     IsDir := true;
     Icon_ := getFileIcon "dir" |}.

(** The entry appended for a file (lines 238-245). *)
Definition fileEntry (obj : ObjectInfo) : DirEntry :=
  {| URL := "/" ++ Key obj;
     Name := path.Base (Key obj);
     Size := formatSize (minio.Size obj);
     ModTime := LastModified obj;
     IsDir := false;
     Icon_ := getFileIcon "file" |}.

(** The loop [for obj := range ch] of [handleDirectory]. [None] is the
    [return false] from inside the loop; otherwise the loop ends with the
    final [entries] and [hasContent]. *)
Fixpoint handleDirectory_loop (prefix : string) (ch : list ObjectInfo)
    (entries : list DirEntry) (hasContent : bool)
  : M (option (list DirEntry * bool)) :=
  match ch with
  | [] => ret (Some (entries, hasContent))
  | obj :: ch' =>
      match Err obj with
      | Some e => log_Printf (LogListFailed e) ;; ret None
      | None =>
          let hasContent := true in
          if String.eqb (Key obj) prefix then
            handleDirectory_loop prefix ch' entries hasContent
          else if String.eqb (StorageClass obj) "" then
            handleDirectory_loop prefix ch' (entries ++ [dirEntry obj])%list hasContent
          else
            handleDirectory_loop prefix ch' (entries ++ [fileEntry obj])%list hasContent
      end
  end.

(** [handleDirectory(w, prefix)] *)
Definition handleDirectory (minioClient : Client) (prefix : string) : M bool :=
  let prefix := normalizePrefix prefix in
  ch <- call_ListObjects minioClient prefix false ;;
  let entries : list DirEntry := [] in
  let hasContent := false in
  let entries :=
    if negb (String.eqb prefix "") then (entries ++ [parentEntry prefix])%list
    else entries in
  r <- handleDirectory_loop prefix ch entries hasContent ;;
  match r with
  | None => ret false
  | Some (entries, hasContent) =>
      if negb hasContent then ret false
      else
        Header_Set "Content-Type" "text/html; charset=utf-8" ;;
        err <- tmpl_Execute ("/" ++ prefix) entries ;;
        match err with
        | Some e => log_Printf (LogTemplateFailed e)
        | None => ret tt
        end ;;
        ret true
  end.

(** [handler(w, r)], on [r.URL.Path] *)
Definition handler (minioClient : Client) (requestPath : string) : M Datatypes.unit :=
  let key := strings.TrimPrefix requestPath "/" in
  handled <- handleFile minioClient key ;;
  if handled then ret tt
  else
    handled <- handleDirectory minioClient key ;;
    if handled then ret tt
    else http_Error "404 Not Found" StatusNotFound.

(** A fresh request: an empty response on a connection that may be broken. *)
Definition fresh_response (broken : option error) : ResponseWriter :=
  {| rw_header := []; rw_status := None; rw_body := []; rw_broken := broken |}.

Definition fresh_world (broken : option error) : World :=
  {| resp := fresh_response broken; logs := []; calls := [] |}.

(** ** Observations on a run

    The vocabulary the properties below are stated in. *)

(** The error [io.Copy] returns for [object] on the response [w]. *)
Definition copy_error (w : ResponseWriter) (object : Object) : option error :=
  if String.eqb (obj_bytes object) "" then obj_err object
  else match rw_broken w with
       | Some e => Some e
       | None => obj_err object
       end.

(** The body chunks [io.Copy] appends. *)
Definition copied (w : ResponseWriter) (object : Object) : list Chunk :=
  if String.eqb (obj_bytes object) "" then []
  else match rw_broken w with
       | Some _ => []
       | None => [Bytes (obj_bytes object)]
       end.

(** The first failure a listing delivers, if any. *)
Fixpoint first_error (ch : list ObjectInfo) : option error :=
  match ch with
  | [] => None
  | obj :: ch' =>
      match Err obj with
      | Some e => Some e
      | None => first_error ch'
      end
  end.

(** A listing item other than the prefix itself. *)
Definition is_child (prefix : string) (obj : ObjectInfo) : bool :=
  negb (String.eqb (Key obj) prefix).

(** The entry of a child: a directory without storage class, else a file. *)
Definition childEntry (obj : ObjectInfo) : DirEntry :=
  if String.eqb (StorageClass obj) "" then dirEntry obj else fileEntry obj.

Definition children (prefix : string) (ch : list ObjectInfo) : list DirEntry :=
  map childEntry (filter (is_child prefix) ch).

Definition parentEntries (prefix : string) : list DirEntry :=
  if String.eqb prefix "" then [] else [parentEntry prefix].

(** The world after the listing [(Path, Entries)] went through the template. *)
Definition rendered (Path : string) (Entries : list DirEntry) (s : World) : World :=
  let h := (Header_Del "Content-Type" (rw_header (resp s))
              ++ [("Content-Type", "text/html; charset=utf-8")])%list in
  match rw_broken (resp s) with
  | Some e =>
      {| resp := {| rw_header := h; rw_status := rw_status (resp s);
                    rw_body := rw_body (resp s); rw_broken := Some e |};
         logs := (logs s ++ [LogTemplateFailed e])%list;
         calls := calls s |}
  | None =>
      {| resp := {| rw_header := h;
                    rw_status := match rw_status (resp s) with
                                 | Some c => Some c
                                 | None => Some 200
                                 end;
                    rw_body := (rw_body (resp s) ++ [Listing Path Entries])%list;
                    rw_broken := None |};
         logs := logs s;
         calls := calls s |}
  end.

(** The response after [http.Error(w, "404 Not Found", 404)]. *)
Definition notFound (w : ResponseWriter) : ResponseWriter :=
  {| rw_header :=
       (Header_Del "X-Content-Type-Options"
          (Header_Del "Content-Type" (Header_Del "Content-Length" (rw_header w))
             ++ [("Content-Type", "text/plain; charset=utf-8")])
          ++ [("X-Content-Type-Options", "nosniff")])%list;
     rw_status := match rw_status w with Some c => Some c | None => Some 404 end;
     rw_body := match rw_broken w with
                | Some _ => rw_body w
                | None => (rw_body w ++ [Bytes ("404 Not Found" ++ String "010" "")])%list
                end;
     rw_broken := rw_broken w |}.

Definition is_listing (c : Chunk) : bool :=
  match c with Listing _ _ => true | Bytes _ => false end.

(** What the handler does once the file resolver has missed. *)
Definition afterFileMiss (minioClient : Client) (key : string) : M Datatypes.unit :=
  handled <- handleDirectory minioClient key ;;
  if handled then ret tt else http_Error "404 Not Found" StatusNotFound.

(** [w.Header().Get(key)] for a canonical key: the first value held for it. *)
Definition Header_Get (key : string) (h : list (string * string)) : option string :=
  match filter (fun kv => String.eqb (fst kv) key) h with
  | [] => None
  | kv :: _ => Some (snd kv)
  end.

(** How many values the header map holds for [key]. *)
Definition Header_count (key : string) (h : list (string * string)) : nat :=
  List.length (filter (fun kv => String.eqb (fst kv) key) h).

(** Does the metadata call allow the content call (lines 151-160)? *)
Definition stat_allows_get (r : ObjectInfo * option error) : bool :=
  match snd r with
  | None => negb (String.eqb (ContentType (fst r)) dirContentType)
  | Some _ => false
  end.

(** The fields of a listing row agree with its [IsDir] flag. *)
Definition entry_consistent (e : DirEntry) : Prop :=
  if IsDir e
  then Size e = "-" /\ ModTime e = Time_zero /\ Icon_ e = IconDir
  else Icon_ e = IconFile.

(** Every byte is below [utf8.RuneSelf]. *)
Fixpoint is_ascii (s : string) : bool :=
  match s with
  | EmptyString => true
  | String c s' => (nat_of_ascii c <? 128)%nat && is_ascii s'
  end.

(** A path segment: not empty, without slash, and neither [.] nor [..]. *)
Definition plain_segment (seg : string) : Prop :=
  seg <> "" /\ strings.ContainsByte seg "/" = false /\ seg <> "." /\ seg <> "..".

(** Segments joined by slashes. *)
Fixpoint join (segs : list string) : string :=
  match segs with
  | [] => ""
  | [seg] => seg
  | seg :: segs' => seg ++ "/" ++ join segs'
  end.

(** The raw bytes of a response body, listings left out. *)
Fixpoint body_bytes (body : list Chunk) : string :=
  match body with
  | [] => ""
  | Bytes data :: body' => data ++ body_bytes body'
  | Listing _ _ :: body' => body_bytes body'
  end.

(** What the output of [path.Clean] becomes when an element is about to be
    appended to it. *)
Definition with_separator (out : string) : string :=
  if (String.length out =? 0)%nat then out else out ++ "/".

(** The content call of minio-go is lazy: [GetObject] sends no request of its
    own and fails only on the checks of the bucket and object names, which
    [StatObject] makes first. So it fails on no key whose metadata call
    succeeded; a fetch that fails shows as the error of the first read. *)
Definition GetObject_lazy (c : Client) : Prop :=
  forall (bucketName key : string) (e : error),
    GetObject c bucketName key = inr e ->
    exists e', snd (StatObject c bucketName key) = Some e'.

(** ** Stores used as test fixtures *)

Module Fixtures.

Definition noSuchKey : error :=
  ErrResponse {| Code := "NoSuchKey"; Message := "The specified key does not exist." |}.

Definition zeroInfo : ObjectInfo :=
  {| Key := ""; minio.Size := 0; LastModified := Time_zero; ContentType := "";
     StorageClass := ""; Err := None |}.

Definition fileInfo (key : string) (size : Z) (modified : Time) : ObjectInfo :=
  {| Key := key; minio.Size := size; LastModified := modified;
     ContentType := "application/octet-stream"; StorageClass := "STANDARD";
     Err := None |}.

(** A common prefix, as a delimiter listing reports it. *)
Definition prefixInfo (key : string) : ObjectInfo :=
  {| Key := key; minio.Size := 0; LastModified := Time_zero; ContentType := "";
     StorageClass := ""; Err := None |}.

Definition errInfo (e : error) : ObjectInfo :=
  {| Key := ""; minio.Size := 0; LastModified := Time_zero; ContentType := "";
     StorageClass := ""; Err := Some e |}.

(** A bucket holding the objects [a/b] (5 bytes) and [a/b/c] (1536 bytes). *)
Definition ambiguous : Client :=
  {| StatObject := fun _ key =>
       if String.eqb key "a/b" then (fileInfo "a/b" 5 100, None)
       else if String.eqb key "a/b/c" then (fileInfo "a/b/c" 1536 200, None)
       else (zeroInfo, Some noSuchKey);
     GetObject := fun _ key =>
       if String.eqb key "a/b" then inl {| obj_bytes := "hello"; obj_err := None |}
       else if String.eqb key "a/b/c" then inl {| obj_bytes := "..."; obj_err := None |}
       else inr noSuchKey;
     ListObjects := fun _ prefix _ =>
       if String.eqb prefix "" then [prefixInfo "a/"]
       else if String.eqb prefix "a/" then [fileInfo "a/b" 5 100; prefixInfo "a/b/"]
       else if String.eqb prefix "a/b/" then [fileInfo "a/b/c" 1536 200]
       else [] |}.

(** A bucket holding only the directory placeholder [d/]. *)
Definition placeholder : Client :=
  {| StatObject := fun _ key =>
       if String.eqb key "d/"
       then ({| Key := "d/"; minio.Size := 0; LastModified := 50;
                ContentType := dirContentType; StorageClass := "STANDARD";
                Err := None |}, None)
       else (zeroInfo, Some noSuchKey);
     GetObject := fun _ key =>
       if String.eqb key "d/" then inl {| obj_bytes := ""; obj_err := None |}
       else inr noSuchKey;
     ListObjects := fun _ prefix _ =>
       if String.eqb prefix "d/" then [fileInfo "d/" 0 50]
       else if String.eqb prefix "" then [prefixInfo "d/"]
       else [] |}.

Definition ioError : error := ErrOther "connection reset by peer".

(** A store that is unreachable: every call fails with a transport error,
    and a listing delivers one item and then the error. *)
Definition flaky : Client :=
  {| StatObject := fun _ _ => (zeroInfo, Some ioError);
     GetObject := fun _ _ => inr ioError;
     ListObjects := fun _ prefix _ =>
       [fileInfo (prefix ++ "x") 1 1; errInfo ioError; fileInfo (prefix ++ "y") 2 2] |}.

(** A store on which the object [f.txt] exists for the metadata call, while
    its content cannot be fetched: the content call hands out a reader, and
    the failure shows at the first read. *)
Definition unreadable : Client :=
  {| StatObject := fun _ key => (fileInfo key 5 100, None);
     GetObject := fun _ _ => inl {| obj_bytes := ""; obj_err := Some ioError |};
     ListObjects := fun _ _ _ => [] |}.

(** A bucket holding the object [pub/img/icons/a.png] (2048 bytes). *)
Definition nested : Client :=
  {| StatObject := fun _ key =>
       if String.eqb key "pub/img/icons/a.png"
       then (fileInfo "pub/img/icons/a.png" 2048 7, None)
       else (zeroInfo, Some noSuchKey);
     GetObject := fun _ key =>
       inl {| obj_bytes := "";
              obj_err := if String.eqb key "pub/img/icons/a.png" then None
                         else Some noSuchKey |};
     ListObjects := fun _ prefix _ =>
       if String.eqb prefix "pub/img/icons/"
       then [fileInfo "pub/img/icons/a.png" 2048 7]
       else if String.eqb prefix "pub/img/" then [prefixInfo "pub/img/icons/"]
       else if String.eqb prefix "pub/" then [prefixInfo "pub/img/"]
       else if String.eqb prefix "" then [prefixInfo "pub/"]
       else [] |}.

End Fixtures.

(** * Properties *)

(** ** The size formatter *)

Section FormatSize.

(** No multiplication of the loop wraps as long as [div * n] fits. *)
Lemma wrap64_id (z : Z) : int64_range z -> wrap64 z = z.
Proof.
  unfold int64_range, wrap64; intros H.
  rewrite Z.mod_small; lia.
Qed.

(** The loop stops at the largest power of 1024 not exceeding [n]. *)
Lemma formatSize_loop_spec (n div : Z) (exp : nat) :
  0 <= n -> 0 < div -> div * n < 2 ^ 63 ->
  exists k : nat,
    formatSize_loop n div exp = (div * unit ^ Z.of_nat k, (exp + k)%nat) /\
    n < unit ^ (Z.of_nat k + 1) /\
    (k = 0%nat \/ unit ^ Z.of_nat k <= n).
Proof.
  funelim (formatSize_loop n div exp); intros Hn Hdiv Hfit.
  - (* n >= unit: one more turn *)
    clear Heq Heqcall.
    unfold unit in *.
    assert (Hq : n ÷ 1024 = n / 1024) by (apply Z.quot_div_nonneg; lia).
    assert (Hq0 : 1 <= n / 1024) by (apply Z.div_le_lower_bound; lia).
    assert (Hqn : 1024 * (n / 1024) <= n) by (apply Z.mul_div_le; lia).
    assert (Hw : wrap64 (div * 1024) = div * 1024).
    { apply wrap64_id; unfold int64_range; nia. }
    destruct H as (k & Hk & Hlt & Hge).
    + rewrite Hq; lia.
    + rewrite Hw; lia.
    + rewrite Hw, Hq; nia.
    + exists (S k); rewrite Hk, Hw.
      rewrite Hq in Hlt, Hge.
      replace (Z.of_nat (S k)) with (Z.of_nat k + 1) by lia.
      rewrite !Z.pow_add_r, !Z.pow_1_r in * by lia.
      repeat split.
      * f_equal; [ring | lia].
      * assert (n / 1024 + 1 <= 1024 ^ Z.of_nat k * 1024) by lia.
        pose proof (Z.mod_pos_bound n 1024 ltac:(lia)).
        pose proof (Z.div_mod n 1024 ltac:(lia)).
        nia.
      * right.
        destruct Hge as [-> | Hge]; [simpl; lia | nia].
  - (* n < unit: the loop ends *)
    exists 0%nat. unfold unit in *.
    rewrite Nat.add_0_r; simpl.
    repeat split; try lia.
    f_equal; ring.
Qed.

Lemma pow1024_le_exp (e : nat) : unit ^ (Z.of_nat e + 1) < 2 ^ 63 -> (e <= 5)%nat.
Proof.
  unfold unit; intros H.
  destruct (le_gt_dec e 5) as [|Hgt]; [assumption | exfalso].
  assert (1024 ^ 7 <= 1024 ^ (Z.of_nat e + 1)) by (apply Z.pow_le_mono_r; lia).
  change (1024 ^ 7) with 1180591620717411303424 in *.
  change (2 ^ 63) with 9223372036854775808 in *.
  lia.
Qed.

End FormatSize.

(** ** Exact conversions and quotients on [float64] *)

Section Float64Facts.

Lemma digits2_pos_iter_xO (p n : positive) :
  digits2_pos (Pos.iter xO p n) = (digits2_pos p + n)%positive.
Proof.
  induction n as [|n IH] using Pos.peano_ind.
  - simpl. lia.
  - rewrite Pos.iter_succ. simpl. rewrite IH. lia.
Qed.

Lemma Zpos_iter_xO (p n : positive) :
  Zpos (Pos.iter xO p n) = Zpos p * 2 ^ Zpos n.
Proof.
  induction n as [|n IH] using Pos.peano_ind.
  - simpl. lia.
  - rewrite Pos.iter_succ, Pos2Z.inj_xO, IH, Pos2Z.inj_succ, Z.pow_succ_r by lia. ring.
Qed.

Lemma digits2_pos_bound (p : positive) :
  Zpos p < 2 ^ Zpos (digits2_pos p) <= 2 * Zpos p.
Proof.
  induction p as [p IH | p IH |]; simpl digits2_pos;
    rewrite ?Pos2Z.inj_succ, ?Z.pow_succ_r by lia; try lia.
Qed.

Lemma digits2_pos_le (p : positive) (n : Z) :
  0 <= n -> Zpos p < 2 ^ n -> Zpos (digits2_pos p) <= n.
Proof.
  intros Hn Hlt.
  destruct (digits2_pos_bound p) as [_ Hle].
  destruct (Z_le_gt_dec (Zpos (digits2_pos p)) n) as [|Hgt]; [assumption | exfalso].
  assert (2 ^ (n + 1) <= 2 ^ Zpos (digits2_pos p)) by (apply Z.pow_le_mono_r; lia).
  rewrite Z.pow_add_r, Z.pow_1_r in * by lia. lia.
Qed.

Lemma fexp64 (e : Z) : -1021 <= e -> fexp float64.prec float64.emax e = e - 53.
Proof.
  intros He. unfold fexp, emin, float64.prec, float64.emax.
  change (3 - 1024 - 53) with (-1074). lia.
Qed.

Lemma shr_fexp_exact (m : positive) (e : Z) :
  digits2_pos m = 53%positive -> -1074 <= e ->
  shr_fexp float64.prec float64.emax (Zpos m) e loc_Exact
    = ({| shr_m := Zpos m; shr_r := false; shr_s := false |}, e).
Proof.
  intros Hd He. unfold shr_fexp. cbn [Zdigits2]. rewrite Hd, fexp64 by lia.
  replace (53 + e - 53 - e) with 0 by lia. reflexivity.
Qed.

Lemma binary_round_aux_exact (m : positive) (e : Z) :
  digits2_pos m = 53%positive -> -1074 <= e <= 971 ->
  binary_round_aux float64.prec float64.emax false (Zpos m) e loc_Exact
    = S754_finite false m e.
Proof.
  intros Hd He. unfold binary_round_aux.
  rewrite shr_fexp_exact by (assumption || lia).
  cbn [shr_m loc_of_shr_record round_nearest_even].
  rewrite shr_fexp_exact by (assumption || lia).
  cbn [shr_m]. unfold float64.emax, float64.prec.
  destruct (Z.leb_spec e (1024 - 53)); [reflexivity | lia].
Qed.

(** An integer below [2^53] converts without rounding. *)
Lemma of_int_exact (p : positive) :
  Zpos p < 2 ^ 53 ->
  exists m : positive,
    float64.of_int (Zpos p) = S754_finite false m (Zpos (digits2_pos p) - 53) /\
    digits2_pos m = 53%positive /\
    Zpos m = Zpos p * 2 ^ (53 - Zpos (digits2_pos p)).
Proof.
  intros Hp.
  pose proof (digits2_pos_le p 53 ltac:(lia) Hp) as Hd.
  unfold float64.of_int, binary_normalize, binary_round.
  rewrite fexp64 by lia.
  unfold shl_align.
  replace (Zpos (digits2_pos p) + 0 - 53 - 0) with (Zpos (digits2_pos p) - 53) by lia.
  replace (Zpos (digits2_pos p) + 0 - 53) with (Zpos (digits2_pos p) - 53) by lia.
  destruct (Zpos (digits2_pos p) - 53) as [|q|q] eqn:Hq; [| lia |].
  - exists p.
    assert (Hd53 : digits2_pos p = 53%positive) by lia.
    rewrite binary_round_aux_exact by (assumption || lia).
    rewrite Hd53. repeat split; try reflexivity. simpl. lia.
  - exists (Pos.iter xO p q).
    assert (Hd53 : digits2_pos (Pos.iter xO p q) = 53%positive)
      by (rewrite digits2_pos_iter_xO; lia).
    rewrite binary_round_aux_exact by (assumption || lia).
    repeat split; try assumption.
    rewrite Zpos_iter_xO. f_equal. f_equal. lia.
Qed.


(** Division by a power of two whose mantissa is [2^52] is exact. *)
Lemma div_pow2_exact (mx : positive) (ex ey : Z) :
  digits2_pos mx = 53%positive ->
  -100 <= ex <= 100 -> -100 <= ey <= 100 ->
  float64.div (S754_finite false mx ex) (S754_finite false 4503599627370496 ey)
    = S754_finite false mx (ex - ey - 52).
Proof.
  intros Hd Hex Hey.
  unfold float64.div, SFdiv, SFdiv_core_binary.
  cbn [Zdigits2 xorb]. rewrite Hd.
  change (digits2_pos 4503599627370496) with 53%positive.
  rewrite fexp64 by lia.
  replace (Z.min (53 + ex - (53 + ey) - 53) (ex - ey)) with (ex - ey - 53) by lia.
  replace (ex - ey - (ex - ey - 53)) with 53 by lia.
  rewrite Z.shiftl_mul_pow2 by lia.
  assert (Hq : Z.div_eucl (Zpos mx * 2 ^ 53) 4503599627370496 = (Zpos mx~0, 0)).
  { pose proof (Z.div_eucl_eq (Zpos mx * 2 ^ 53) 4503599627370496 ltac:(lia)) as Heq.
    pose proof (Z.mod_pos_bound (Zpos mx * 2 ^ 53) 4503599627370496 ltac:(lia)) as Hr.
    unfold Z.modulo in Hr.
    destruct (Z.div_eucl (Zpos mx * 2 ^ 53) 4503599627370496) as [q r].
    change (2 ^ 53) with (2 * 4503599627370496) in Heq.
    assert (q = 2 * Zpos mx) by nia. assert (r = 0) by nia. subst. reflexivity. }
  rewrite Hq.
  change (new_location 4503599627370496 0) with loc_Exact.
  unfold binary_round_aux.
  assert (Hshr : shr_fexp float64.prec float64.emax (Zpos mx~0) (ex - ey - 53) loc_Exact
                 = ({| shr_m := Zpos mx; shr_r := false; shr_s := false |}, ex - ey - 52)).
  { unfold shr_fexp. cbn [Zdigits2 digits2_pos]. rewrite Hd, fexp64 by lia.
    replace (Zpos (Pos.succ 53) + (ex - ey - 53) - 53 - (ex - ey - 53)) with 1 by lia.
    cbn. f_equal. lia. }
  rewrite Hshr. cbn [shr_m loc_of_shr_record round_nearest_even].
  rewrite shr_fexp_exact by (assumption || lia).
  cbn [shr_m]. unfold float64.emax, float64.prec.
  destruct (Z.leb_spec (ex - ey - 52) (1024 - 53)); [reflexivity | lia].
Qed.

Lemma round_half_even_scale (n d c : Z) :
  0 < d -> 0 < c ->
  fmt.round_half_even (n * c) (d * c) = fmt.round_half_even n d.
Proof.
  intros Hd Hc. unfold fmt.round_half_even.
  rewrite Z.div_mul_cancel_r, Z.mul_mod_distr_r by lia.
  replace (2 * (n mod d * c)) with (2 * (n mod d) * c) by ring.
  rewrite <- Zmult_compare_compat_r by lia. reflexivity.
Qed.

(** The powers of 1024 the formatter divides by, as floats. *)
Lemma of_int_pow1024 (exp : nat) :
  (exp <= 5)%nat ->
  float64.of_int (1024 ^ (Z.of_nat exp + 1))
    = S754_finite false 4503599627370496 (10 * (Z.of_nat exp + 1) - 52).
Proof.
  intros Hexp.
  do 6 (destruct exp as [|exp]; [vm_compute; reflexivity |]). lia.
Qed.

(** For a size below [2^53] the quotient is exact, so what is printed is the
    quotient rounded to tenths, half to even. *)
Lemma f1_quotient (size : Z) (exp : nat) :
  1024 <= size < 2 ^ 53 -> (exp <= 5)%nat ->
  fmt.f1 (float64.div (float64.of_int size)
                      (float64.of_int (1024 ^ (Z.of_nat exp + 1))))
  = let t := fmt.round_half_even (10 * size) (1024 ^ (Z.of_nat exp + 1)) in
    fmt.d (t / 10) ++ "." ++ fmt.d (t mod 10).
Proof.
  intros Hsize Hexp.
  destruct size as [|p|p]; try lia.
  destruct (of_int_exact p ltac:(lia)) as (m & Hof & Hd & Hm).
  pose proof (digits2_pos_le p 53 ltac:(lia) ltac:(lia)) as Hdp.
  assert (Hdp1 : 1 <= Zpos (digits2_pos p)) by lia.
  rewrite Hof, of_int_pow1024, div_pow2_exact by (assumption || lia).
  cbn zeta. unfold fmt.f1.
  set (k := 10 * (Z.of_nat exp + 1)).
  assert (Hk : 1024 ^ (Z.of_nat exp + 1) = 2 ^ k).
  { unfold k. change 1024 with (2 ^ 10). rewrite <- Z.pow_mul_r by lia. reflexivity. }
  rewrite Hk.
  replace (Zpos (digits2_pos p) - 53 - (k - 52) - 52)
    with (- (k + (53 - Zpos (digits2_pos p)))) by lia.
  assert (Ht : fmt.tenths m (- (k + (53 - Zpos (digits2_pos p))))
               = fmt.round_half_even (10 * Zpos p) (2 ^ k)).
  { unfold fmt.tenths.
    destruct (k + (53 - Zpos (digits2_pos p))) as [|q|q] eqn:Hq; try lia.
    cbn [Z.opp]. rewrite <- Hq, Hm, Z.pow_add_r by lia.
    rewrite Z.mul_assoc. apply round_half_even_scale; lia. }
  rewrite Ht. reflexivity.
Qed.

End Float64Facts.

(** C8. For every non-negative [int64] size: below 1024 the size is rendered
    as its decimal digits followed by [" B"]; from 1024 on, the divisor is
    the largest power of 1024 not exceeding the size, the [float64] quotient
    is rendered with one digit after the point, and the unit letter is the
    one of [KMGTPE] at the index of that power. Below [2^53] nothing is lost
    in the conversion, and what is printed is the quotient rounded to tenths.
    The five sizes 0, 1023, 1024, 1536 and 1048576 render as the spec lists
    them. *)
Theorem formatSize_correct (size : Z) :
  0 <= size < 2 ^ 63 ->
  (size < 1024 -> formatSize size = fmt.d size ++ " B") /\
  (1024 <= size ->
   exists exp : nat,
     (exp <= 5)%nat /\
     1024 ^ (Z.of_nat exp + 1) <= size < 1024 * 1024 ^ (Z.of_nat exp + 1) /\
     formatSize size =
       fmt.f1 (float64.div (float64.of_int size)
                           (float64.of_int (1024 ^ (Z.of_nat exp + 1))))
       ++ " " ++ String (byte_at "KMGTPE" exp) "B" /\
     (size < 2 ^ 53 ->
      formatSize size =
        (let t := fmt.round_half_even (10 * size) (1024 ^ (Z.of_nat exp + 1)) in
         fmt.d (t / 10) ++ "." ++ fmt.d (t mod 10))
        ++ " " ++ String (byte_at "KMGTPE" exp) "B")) /\
  formatSize 0 = "0 B" /\
  formatSize 1023 = "1023 B" /\
  formatSize 1024 = "1.0 KB" /\
  formatSize 1536 = "1.5 KB" /\
  formatSize 1048576 = "1.0 MB".
Proof.
  intros Hsize.
  split; [| split; [| repeat split; vm_compute; reflexivity]].
  - intros Hlt. unfold formatSize, unit.
    destruct (Z.ltb_spec size 1024); [reflexivity | lia].
  - intros Hge. unfold formatSize.
    destruct (Z.ltb_spec size unit) as [Hlt | _]; [unfold unit in Hlt; lia |].
    assert (Hq : size ÷ unit = size / 1024) by (apply Z.quot_div_nonneg; lia).
    assert (Hqn : 1024 * (size / 1024) <= size) by (apply Z.mul_div_le; lia).
    assert (Hq1 : 1 <= size / 1024) by (apply Z.div_le_lower_bound; lia).
    destruct (formatSize_loop_spec (size ÷ unit) unit 0) as (k & Hk & Hlt & Hlow).
    + rewrite Hq; lia.
    + unfold unit; lia.
    + rewrite Hq; unfold unit; lia.
    + rewrite Hk; simpl Nat.add.
      rewrite Hq in Hlt, Hlow. unfold unit in *.
      assert (Hpow : 1024 * 1024 ^ Z.of_nat k = 1024 ^ (Z.of_nat k + 1))
        by (rewrite Z.pow_add_r, Z.pow_1_r by lia; ring).
      assert (Hbounds : 1024 ^ (Z.of_nat k + 1) <= size
                        < 1024 * 1024 ^ (Z.of_nat k + 1)).
      { rewrite <- Hpow.
        rewrite Z.pow_add_r, Z.pow_1_r in Hlt by lia.
        pose proof (Z.mod_pos_bound size 1024 ltac:(lia)).
        pose proof (Z.div_mod size 1024 ltac:(lia)).
        destruct Hlow as [-> | Hlow]; simpl Z.of_nat in *;
          rewrite ?Z.pow_0_r in *; nia. }
      assert (Hk5 : (k <= 5)%nat) by (apply pow1024_le_exp; unfold unit; lia).
      exists k. split; [exact Hk5 | split; [exact Hbounds | split]].
      * rewrite Hpow. reflexivity.
      * intros H53. rewrite Hpow, f1_quotient by (assumption || lia). reflexivity.
Qed.

(** The witness of C8, at 1280 bytes: the quotient 1.25 is a tie, which goes
    to the even tenth. *)
Lemma formatSize_correct_witness :
  0 <= 1280 < 2 ^ 63 /\ formatSize 1280 = "1.2 KB".
Proof.
  assert (H : 0 <= 1280 < 2 ^ 63) by lia.
  split; [exact H |].
  destruct (proj1 (proj2 (formatSize_correct 1280 H)) ltac:(lia))
    as (exp & Hexp & Hbounds & _ & Hfmt).
  rewrite (Hfmt ltac:(lia)).
  assert (exp = 0%nat) as ->.
  { destruct exp as [|exp]; [reflexivity | exfalso].
    assert (1024 ^ 2 <= 1024 ^ (Z.of_nat (S exp) + 1))
      by (apply Z.pow_le_mono_r; lia).
    change (1024 ^ 2) with 1048576 in *. lia. }
  vm_compute. reflexivity.
Defined.

(** ** The file resolver *)

(** Unfolding of the monadic operations. *)
Ltac run :=
  unfold call_StatObject, call_GetObject, call_ListObjects, http_Error,
    tmpl_Execute, io_Copy, rw_Write, Header_Set, WriteHeader, with_resp,
    log_Printf, record_call, bind, ret in *;
  cbn [fst snd resp logs calls rw_header rw_status rw_body rw_broken] in *.

Section FileResolver.

Variable minioClient : Client.
Variable key : string.
Variable s : World.

(** The resolver starts with the metadata call and makes no listing call. *)
Lemma handleFile_calls :
  let s' := snd (handleFile minioClient key s) in
  calls s' = (calls s ++ [CallStatObject bucket key])%list \/
  calls s' = (calls s ++ [CallStatObject bucket key; CallGetObject bucket key])%list.
Proof.
  unfold handleFile; run.
  destruct (StatObject minioClient bucket key) as [objInfo [e|]];
    destruct (String.eqb (ContentType objInfo) dirContentType); cbn; auto.
  - destruct (String.eqb _ _); cbn; auto.
  - destruct (GetObject minioClient bucket key) as [object|e]; cbn.
    + right.
      destruct (String.eqb (obj_bytes object) ""); cbn.
      * destruct (obj_err object); cbn; rewrite <- app_assoc; reflexivity.
      * destruct (rw_broken (resp s)); cbn;
          [| destruct (obj_err object); cbn]; rewrite <- app_assoc; reflexivity.
    + right. rewrite <- app_assoc; reflexivity.
Qed.

(** A miss leaves the response as it was. *)
Lemma handleFile_miss_resp :
  fst (handleFile minioClient key s) = false ->
  resp (snd (handleFile minioClient key s)) = resp s.
Proof.
  unfold handleFile; run.
  destruct (StatObject minioClient bucket key) as [objInfo [e|]];
    destruct (String.eqb (ContentType objInfo) dirContentType); cbn; auto.
  - destruct (String.eqb _ _); cbn; auto.
  - destruct (GetObject minioClient bucket key) as [object|e]; cbn; auto.
    destruct (String.eqb (obj_bytes object) ""); cbn.
    + destruct (obj_err object); cbn; discriminate.
    + destruct (rw_broken (resp s)); cbn;
        [| destruct (obj_err object); cbn]; discriminate.
Qed.

(** Metadata that names a directory placeholder: nothing but the call. *)
Lemma handleFile_placeholder :
  ContentType (fst (StatObject minioClient bucket key)) = dirContentType ->
  handleFile minioClient key s =
    (false, {| resp := resp s; logs := logs s;
               calls := (calls s ++ [CallStatObject bucket key])%list |}).
Proof.
  intros Hct. unfold handleFile; run.
  destruct (StatObject minioClient bucket key) as [objInfo err]; cbn in *.
  rewrite Hct, String.eqb_refl. reflexivity.
Qed.

(** A failed metadata call, whatever the error. *)
Lemma handleFile_stat_error (objInfo : ObjectInfo) (e : error) :
  StatObject minioClient bucket key = (objInfo, Some e) ->
  fst (handleFile minioClient key s) = false /\
  calls (snd (handleFile minioClient key s))
    = (calls s ++ [CallStatObject bucket key])%list.
Proof.
  intros Hstat. unfold handleFile; run. rewrite Hstat.
  destruct (String.eqb (ContentType objInfo) dirContentType); cbn; auto.
  destruct (String.eqb _ _); cbn; auto.
Qed.

(** A failed metadata call that is not "no such key" is logged. *)
Lemma handleFile_stat_error_logged (objInfo : ObjectInfo) (e : error) :
  StatObject minioClient bucket key = (objInfo, Some e) ->
  ContentType objInfo <> dirContentType ->
  Code (ToErrorResponse e) <> "NoSuchKey" ->
  handleFile minioClient key s =
    (false, {| resp := resp s; logs := (logs s ++ [LogStatFailed e])%list;
               calls := (calls s ++ [CallStatObject bucket key])%list |}).
Proof.
  intros Hstat Hct Hcode. unfold handleFile; run. rewrite Hstat.
  apply String.eqb_neq in Hct, Hcode. rewrite Hct, Hcode. reflexivity.
Qed.

(** Metadata of a regular object and a failed content call. *)
Lemma handleFile_get_error (objInfo : ObjectInfo) (e : error) :
  StatObject minioClient bucket key = (objInfo, None) ->
  ContentType objInfo <> dirContentType ->
  GetObject minioClient bucket key = inr e ->
  handleFile minioClient key s =
    (false,
     {| resp := resp s; logs := (logs s ++ [LogGetFailed e])%list;
        calls := (calls s ++ [CallStatObject bucket key;
                              CallGetObject bucket key])%list |}).
Proof.
  intros Hstat Hct Hget. unfold handleFile; run. rewrite Hstat.
  apply String.eqb_neq in Hct. rewrite Hct, Hget; cbn.
  rewrite <- app_assoc. reflexivity.
Qed.

(** Metadata of a regular object and a content stream: the object is
    served, whatever happens to the copy. *)
Lemma handleFile_served (objInfo : ObjectInfo) (object : Object) :
  StatObject minioClient bucket key = (objInfo, None) ->
  ContentType objInfo <> dirContentType ->
  GetObject minioClient bucket key = inl object ->
  let s' := snd (handleFile minioClient key s) in
  fst (handleFile minioClient key s) = true /\
  calls s' = (calls s ++ [CallStatObject bucket key;
                          CallGetObject bucket key])%list /\
  logs s' = (logs s ++ match copy_error (resp s) object with
                       | Some e => [LogWriteFailed e]
                       | None => []
                       end)%list /\
  rw_body (resp s') = (rw_body (resp s) ++ copied (resp s) object)%list /\
  rw_header (resp s')
    = (Header_Del "Content-Length"
         (Header_Del "Content-Type" (rw_header (resp s))
            ++ [("Content-Type", getContentType key)])
         ++ [("Content-Length", fmt.d (minio.Size objInfo))])%list /\
  (rw_status (resp s) = None -> final_status (resp s') = 200).
Proof.
  intros Hstat Hct Hget. unfold handleFile, copy_error, copied, final_status; run.
  rewrite Hstat. apply String.eqb_neq in Hct. rewrite Hct, Hget; cbn.
  destruct (String.eqb (obj_bytes object) ""); cbn.
  - destruct (obj_err object); cbn; rewrite <- !app_assoc, ?app_nil_r;
      repeat split; auto; intros ->; reflexivity.
  - destruct (rw_broken (resp s)); cbn;
      [| destruct (obj_err object); cbn]; rewrite <- !app_assoc, ?app_nil_r;
      repeat split; auto; intros ->; reflexivity.
Qed.

End FileResolver.

(** ** The directory resolver *)

Section DirectoryResolver.

Variable minioClient : Client.

Lemma first_error_In (ch : list ObjectInfo) (obj : ObjectInfo) (e : error) :
  In obj ch -> Err obj = Some e -> exists e0, first_error ch = Some e0.
Proof.
  induction ch as [|o ch IH]; simpl; [tauto |].
  intros [-> | Hin] He.
  - rewrite He; eauto.
  - destruct (Err o); eauto.
Qed.

Lemma first_error_none (ch : list ObjectInfo) :
  Forall (fun obj => Err obj = None) ch -> first_error ch = None.
Proof.
  induction 1 as [|o ch Ho _ IH]; simpl; [reflexivity |].
  rewrite Ho; assumption.
Qed.

(** The loop: it stops at the first failure, logging it; without one it
    appends the children in order and notes that something was delivered. *)
Lemma handleDirectory_loop_spec (prefix : string) (ch : list ObjectInfo) :
  forall (entries : list DirEntry) (hasContent : bool) (s : World),
    handleDirectory_loop prefix ch entries hasContent s =
      match first_error ch with
      | Some e =>
          (None, {| resp := resp s; logs := (logs s ++ [LogListFailed e])%list;
                    calls := calls s |})
      | None =>
          (Some ((entries ++ children prefix ch)%list,
                 match ch with [] => hasContent | _ :: _ => true end), s)
      end.
Proof.
  induction ch as [|obj ch IH]; intros entries hasContent s; simpl.
  - unfold children; simpl. rewrite app_nil_r. reflexivity.
  - destruct (Err obj) as [e|] eqn:He.
    + reflexivity.
    + unfold children, is_child, childEntry in *; simpl.
      destruct (String.eqb (Key obj) prefix); simpl.
      * rewrite IH. destruct (first_error ch); [reflexivity |].
        destruct ch; reflexivity.
      * destruct (String.eqb (StorageClass obj) ""); rewrite IH;
          (destruct (first_error ch); [reflexivity |]);
          rewrite <- app_assoc; destruct ch; reflexivity.
Qed.

(** The resolver in one equation. *)
Lemma handleDirectory_spec (key : string) (s : World) :
  handleDirectory minioClient key s =
    let prefix := normalizePrefix key in
    let ch := ListObjects minioClient bucket prefix false in
    let s1 := {| resp := resp s; logs := logs s;
                 calls := (calls s ++ [CallListObjects bucket prefix false])%list |} in
    match first_error ch with
    | Some e =>
        (false, {| resp := resp s; logs := (logs s ++ [LogListFailed e])%list;
                   calls := calls s1 |})
    | None =>
        match ch with
        | [] => (false, s1)
        | _ :: _ =>
            (true, rendered ("/" ++ prefix)
                     (parentEntries prefix ++ children prefix ch)%list s1)
        end
    end.
Proof.
  unfold handleDirectory. run. rewrite handleDirectory_loop_spec.
  set (prefix := normalizePrefix key).
  set (ch := ListObjects minioClient bucket prefix false).
  cbn zeta.
  destruct (first_error ch) as [e|]; [reflexivity |].
  destruct ch as [|obj ch']; [reflexivity |].
  unfold rendered, parentEntries.
  cbn [negb resp logs calls rw_header rw_status rw_body rw_broken].
  destruct (rw_broken (resp s)) eqn:Hb;
    destruct (String.eqb prefix ""); cbn [negb app]; reflexivity.
Qed.

(** A miss leaves the response as it was. *)
Lemma handleDirectory_miss_resp (key : string) (s : World) :
  fst (handleDirectory minioClient key s) = false ->
  resp (snd (handleDirectory minioClient key s)) = resp s.
Proof.
  rewrite handleDirectory_spec; cbn zeta.
  destruct (first_error _); [reflexivity |].
  destruct (ListObjects _ _ _ _); [reflexivity | discriminate].
Qed.

(** A listing without errors that delivers something is rendered: the parent
    entry when there is one, then the children. *)
Lemma handleDirectory_renders (key : string) (s : World) :
  let prefix := normalizePrefix key in
  let ch := ListObjects minioClient bucket prefix false in
  ch <> [] ->
  Forall (fun obj => Err obj = None) ch ->
  handleDirectory minioClient key s =
    (true,
     rendered ("/" ++ prefix) (parentEntries prefix ++ children prefix ch)%list
       {| resp := resp s; logs := logs s;
          calls := (calls s ++ [CallListObjects bucket prefix false])%list |}).
Proof.
  cbn zeta; intros Hne Hok.
  rewrite handleDirectory_spec; cbn zeta.
  rewrite (first_error_none _ Hok).
  destruct (ListObjects minioClient bucket (normalizePrefix key) false);
    [contradiction | reflexivity].
Qed.

(** On a working connection the rendered listing is appended to the body. *)
Lemma rendered_body (Path : string) (Entries : list DirEntry) (s : World) :
  rw_broken (resp s) = None ->
  rw_body (resp (rendered Path Entries s))
    = (rw_body (resp s) ++ [Listing Path Entries])%list.
Proof. unfold rendered; intros ->; reflexivity. Qed.

End DirectoryResolver.

(** ** The request handler *)

Section Handler.

Variable minioClient : Client.

Lemma substring_all (s : string) : substring 0 (String.length s) s = s.
Proof. induction s as [|c s IH]; simpl; [reflexivity | rewrite IH; reflexivity]. Qed.

Lemma TrimPrefix_slash (rest : string) :
  strings.TrimPrefix ("/" ++ rest) "/" = rest.
Proof.
  unfold strings.TrimPrefix, strings.HasPrefix; simpl.
  destruct rest; simpl; rewrite ?Nat.sub_0_r, ?substring_all; reflexivity.
Qed.

Lemma TrimPrefix_other (s : string) :
  strings.HasPrefix s "/" = false -> strings.TrimPrefix s "/" = s.
Proof. unfold strings.TrimPrefix; intros ->; reflexivity. Qed.

Lemma http_Error_notFound (s : World) :
  http_Error "404 Not Found" StatusNotFound s =
    (tt, {| resp := notFound (resp s); logs := logs s; calls := calls s |}).
Proof.
  unfold notFound, StatusNotFound; run.
  destruct (rw_broken (resp s)); reflexivity.
Qed.

Lemma notFound_status (w : ResponseWriter) :
  rw_status w = None -> final_status (notFound w) = 404.
Proof. unfold final_status, notFound; simpl; intros ->; reflexivity. Qed.

(** A not-found response adds no listing to the body. *)
Lemma notFound_no_listing (w : ResponseWriter) :
  filter is_listing (rw_body (notFound w)) = filter is_listing (rw_body w).
Proof.
  unfold notFound; simpl. destruct (rw_broken w); [reflexivity |].
  rewrite filter_app; simpl. apply app_nil_r.
Qed.

Lemma handler_file_hit (requestPath : string) (s : World) :
  let key := strings.TrimPrefix requestPath "/" in
  fst (handleFile minioClient key s) = true ->
  handler minioClient requestPath s = (tt, snd (handleFile minioClient key s)).
Proof.
  cbn zeta; unfold handler, bind at 1.
  destruct (handleFile _ _ s) as [handled s1]; simpl; intros ->; reflexivity.
Qed.

Lemma handler_file_miss (requestPath : string) (s : World) :
  let key := strings.TrimPrefix requestPath "/" in
  fst (handleFile minioClient key s) = false ->
  handler minioClient requestPath s =
    afterFileMiss minioClient key (snd (handleFile minioClient key s)).
Proof.
  cbn zeta; unfold handler, afterFileMiss, bind at 1.
  destruct (handleFile _ _ s) as [handled s1]; simpl; intros ->; reflexivity.
Qed.

Lemma afterFileMiss_hit (key : string) (s : World) :
  fst (handleDirectory minioClient key s) = true ->
  afterFileMiss minioClient key s = (tt, snd (handleDirectory minioClient key s)).
Proof.
  unfold afterFileMiss, bind.
  destruct (handleDirectory _ _ s) as [handled s1]; simpl; intros ->; reflexivity.
Qed.

Lemma afterFileMiss_miss (key : string) (s : World) :
  fst (handleDirectory minioClient key s) = false ->
  afterFileMiss minioClient key s =
    (tt, {| resp := notFound (resp s);
            logs := logs (snd (handleDirectory minioClient key s));
            calls := calls (snd (handleDirectory minioClient key s)) |}).
Proof.
  intros Hmiss. pose proof (handleDirectory_miss_resp minioClient key s Hmiss) as Hresp.
  unfold afterFileMiss, bind.
  destruct (handleDirectory _ _ s) as [handled s1]; simpl in *; subst handled.
  rewrite http_Error_notFound, Hresp. reflexivity.
Qed.

(** Both resolvers miss: the response is the not-found one. *)
Lemma handler_not_found (requestPath : string) (s : World) :
  let key := strings.TrimPrefix requestPath "/" in
  let s1 := snd (handleFile minioClient key s) in
  fst (handleFile minioClient key s) = false ->
  fst (handleDirectory minioClient key s1) = false ->
  handler minioClient requestPath s =
    (tt, {| resp := notFound (resp s);
            logs := logs (snd (handleDirectory minioClient key s1));
            calls := calls (snd (handleDirectory minioClient key s1)) |}).
Proof.
  cbn zeta; intros Hfile Hdir.
  rewrite handler_file_miss, afterFileMiss_miss by assumption.
  rewrite handleFile_miss_resp by assumption. reflexivity.
Qed.

(** A hit of the file resolver comes with exactly the two file calls. *)
Lemma handleFile_hit_calls (key : string) (s : World) :
  fst (handleFile minioClient key s) = true ->
  calls (snd (handleFile minioClient key s))
    = (calls s ++ [CallStatObject bucket key; CallGetObject bucket key])%list.
Proof.
  intros Hhit.
  destruct (StatObject minioClient bucket key) as [objInfo err] eqn:Hstat.
  destruct (String.eqb (ContentType objInfo) dirContentType) eqn:Hct.
  - apply String.eqb_eq in Hct.
    rewrite handleFile_placeholder in Hhit by (rewrite Hstat; exact Hct).
    discriminate.
  - apply String.eqb_neq in Hct. destruct err as [e|].
    + destruct (handleFile_stat_error minioClient key s objInfo e Hstat) as [Hf _].
      congruence.
    + destruct (GetObject minioClient bucket key) as [object|e] eqn:Hget.
      * apply (handleFile_served minioClient key s objInfo object Hstat Hct Hget).
      * rewrite (handleFile_get_error minioClient key s objInfo e Hstat Hct Hget) in Hhit.
        discriminate.
Qed.

End Handler.

(** ** The resolution order *)

(** C3. The handler strips one leading slash from the request path and asks
    the file resolver first; when it reports handled the handler stops there,
    having made no listing call. Only on a file miss is the directory
    resolver asked, and when both miss the response is 404 Not Found. A key
    such as [a/b] that is both an object and a listable prefix is served as
    the file, whatever the listing of [a/b/] holds. *)
Theorem handler_file_before_directory
    (minioClient : Client) (requestPath : string) (s : World) :
  let key := strings.TrimPrefix requestPath "/" in
  let file := handleFile minioClient key s in
  let dir := handleDirectory minioClient key (snd file) in
  (forall rest, requestPath = "/" ++ rest -> key = rest) /\
  (strings.HasPrefix requestPath "/" = false -> key = requestPath) /\
  (fst file = true ->
     handler minioClient requestPath s = (tt, snd file) /\
     calls (snd file)
       = (calls s ++ [CallStatObject bucket key; CallGetObject bucket key])%list) /\
  (fst file = false -> fst dir = true ->
     handler minioClient requestPath s = (tt, snd dir)) /\
  (fst file = false -> fst dir = false ->
     handler minioClient requestPath s
       = (tt, {| resp := notFound (resp s); logs := logs (snd dir);
                 calls := calls (snd dir) |}) /\
     (rw_status (resp s) = None -> final_status (notFound (resp s)) = 404)) /\
  (forall objInfo object,
     requestPath = "/a/b" ->
     StatObject minioClient bucket "a/b" = (objInfo, None) ->
     ContentType objInfo <> dirContentType ->
     GetObject minioClient bucket "a/b" = inl object ->
     let s' := snd (handler minioClient requestPath s) in
     calls s' = (calls s ++ [CallStatObject bucket "a/b";
                             CallGetObject bucket "a/b"])%list /\
     rw_body (resp s') = (rw_body (resp s) ++ copied (resp s) object)%list).
Proof.
  cbn zeta.
  split; [| split; [| split; [| split; [| split]]]].
  - intros rest ->. apply TrimPrefix_slash.
  - apply TrimPrefix_other.
  - intros Hhit. split.
    + apply handler_file_hit; assumption.
    + apply handleFile_hit_calls; assumption.
  - intros Hfile Hdir.
    rewrite handler_file_miss by assumption. apply afterFileMiss_hit; assumption.
  - intros Hfile Hdir. split.
    + apply handler_not_found; assumption.
    + apply notFound_status.
  - intros objInfo object -> Hstat Hct Hget.
    destruct (handleFile_served minioClient "a/b" s objInfo object Hstat Hct Hget)
      as (Hhit & Hcalls & _ & Hbody & _).
    change (strings.TrimPrefix "/a/b" "/") with "a/b" in *.
    rewrite (handler_file_hit minioClient "/a/b" s Hhit).
    split; assumption.
Qed.

(** The witness of C3: the bucket holds [a/b] and [a/b/c]; [/a/b] is served
    as the file, with no listing call. *)
Lemma handler_file_before_directory_witness :
  let s' := snd (handler Fixtures.ambiguous "/a/b" (fresh_world None)) in
  calls s' = [CallStatObject bucket "a/b"; CallGetObject bucket "a/b"] /\
  rw_body (resp s') = [Bytes "hello"].
Proof.
  exact (proj2 (proj2 (proj2 (proj2 (proj2
    (handler_file_before_directory Fixtures.ambiguous "/a/b" (fresh_world None))))))
    (Fixtures.fileInfo "a/b" 5 100) {| obj_bytes := "hello"; obj_err := None |}
    eq_refl eq_refl
    (fun H => ltac:(discriminate H)) eq_refl).
Defined.

(** ** The file resolver: claims *)

(** C9. When the metadata of a key carries the content type
    [application/x-directory], the file resolver reports "not handled": it
    makes no content call, logs nothing and leaves the response untouched,
    and the handler goes on with the directory resolver. *)
Theorem handleFile_defers_directory_placeholder
    (minioClient : Client) (key : string) (s : World) :
  ContentType (fst (StatObject minioClient bucket key)) = dirContentType ->
  let s1 := {| resp := resp s; logs := logs s;
               calls := (calls s ++ [CallStatObject bucket key])%list |} in
  handleFile minioClient key s = (false, s1) /\
  forall requestPath,
    strings.TrimPrefix requestPath "/" = key ->
    handler minioClient requestPath s = afterFileMiss minioClient key s1.
Proof.
  intros Hct s1.
  pose proof (handleFile_placeholder minioClient key s Hct) as Hfile.
  split; [exact Hfile |].
  intros requestPath <-.
  rewrite handler_file_miss; rewrite Hfile; reflexivity.
Qed.

(** The witness of C9: the placeholder [d/]. *)
Lemma handleFile_defers_directory_placeholder_witness :
  handleFile Fixtures.placeholder "d/" (fresh_world None)
    = (false, {| resp := fresh_response None; logs := [];
                 calls := [CallStatObject bucket "d/"] |}).
Proof.
  exact (proj1 (handleFile_defers_directory_placeholder
                  Fixtures.placeholder "d/" (fresh_world None) eq_refl)).
Defined.

(** C5. When the metadata call fails with an error other than "no such key",
    the file resolver logs the error and reports "not handled"; the response
    is untouched, so no status of its own reaches the client, and the
    handler goes on with the directory resolver. (A failed [StatObject]
    returns no metadata: the [ObjectInfo] beside the error is the zero value,
    whose content type is not the directory marker tested at line 151.) *)
Theorem handleFile_stat_failure_falls_through
    (minioClient : Client) (key : string) (s : World)
    (objInfo : ObjectInfo) (e : error) :
  StatObject minioClient bucket key = (objInfo, Some e) ->
  ContentType objInfo <> dirContentType ->
  Code (ToErrorResponse e) <> "NoSuchKey" ->
  let s1 := {| resp := resp s; logs := (logs s ++ [LogStatFailed e])%list;
               calls := (calls s ++ [CallStatObject bucket key])%list |} in
  handleFile minioClient key s = (false, s1) /\
  forall requestPath,
    strings.TrimPrefix requestPath "/" = key ->
    handler minioClient requestPath s = afterFileMiss minioClient key s1.
Proof.
  intros Hstat Hct Hcode s1.
  pose proof (handleFile_stat_error_logged minioClient key s objInfo e Hstat Hct Hcode)
    as Hfile.
  split; [exact Hfile |].
  intros requestPath <-.
  rewrite handler_file_miss; rewrite Hfile; reflexivity.
Qed.

(** The witness of C5: a store that cannot be reached. *)
Lemma handleFile_stat_failure_falls_through_witness :
  handleFile Fixtures.flaky "f.txt" (fresh_world None)
    = (false, {| resp := fresh_response None;
                 logs := [LogStatFailed Fixtures.ioError];
                 calls := [CallStatObject bucket "f.txt"] |}).
Proof.
  exact (proj1 (handleFile_stat_failure_falls_through
                  Fixtures.flaky "f.txt" (fresh_world None)
                  Fixtures.zeroInfo Fixtures.ioError eq_refl
                  (fun H => ltac:(discriminate H))
                  (fun H => ltac:(discriminate H)))).
Defined.

(** C2. Once the metadata call has succeeded with a content type other than
    the directory marker, the file resolver reports "handled", whatever
    becomes of the content fetch and of the byte transfer: the content call
    hands out a reader, a failure of the fetch or of the copy is logged, and
    the handler stops there, with no listing call and no not-found
    response. *)
Theorem handleFile_handled_once_stat_succeeds
    (minioClient : Client) (key : string) (s : World) (objInfo : ObjectInfo) :
  GetObject_lazy minioClient ->
  StatObject minioClient bucket key = (objInfo, None) ->
  ContentType objInfo <> dirContentType ->
  exists object,
    GetObject minioClient bucket key = inl object /\
    let s' := snd (handleFile minioClient key s) in
    fst (handleFile minioClient key s) = true /\
    calls s' = (calls s ++ [CallStatObject bucket key;
                            CallGetObject bucket key])%list /\
    logs s' = (logs s ++ match copy_error (resp s) object with
                         | Some e => [LogWriteFailed e]
                         | None => []
                         end)%list /\
    rw_body (resp s') = (rw_body (resp s) ++ copied (resp s) object)%list /\
    (rw_status (resp s) = None -> final_status (resp s') = 200) /\
    (forall e, obj_bytes object = "" -> obj_err object = Some e ->
       logs s' = (logs s ++ [LogWriteFailed e])%list /\
       rw_body (resp s') = rw_body (resp s)) /\
    forall requestPath,
      strings.TrimPrefix requestPath "/" = key ->
      handler minioClient requestPath s = (tt, s').
Proof.
  intros Hlazy Hstat Hct.
  destruct (GetObject minioClient bucket key) as [object | e] eqn:Hget.
  - exists object. split; [reflexivity |].
    destruct (handleFile_served minioClient key s objInfo object Hstat Hct Hget)
      as (Hhit & Hcalls & Hlogs & Hbody & _ & Hstatus).
    cbn zeta.
    split; [exact Hhit |]. split; [exact Hcalls |]. split; [exact Hlogs |].
    split; [exact Hbody |]. split; [exact Hstatus |]. split.
    + intros e Hempty Herr. split.
      * rewrite Hlogs. unfold copy_error. rewrite Hempty, Herr. reflexivity.
      * rewrite Hbody. unfold copied. rewrite Hempty. apply app_nil_r.
    + intros requestPath <-. apply handler_file_hit. exact Hhit.
  - destruct (Hlazy bucket key e Hget) as [e' He']. rewrite Hstat in He'.
    discriminate He'.
Qed.

(** The witness of C2: the content of [f.txt] cannot be fetched; the failure
    is logged and the request is handled. *)
Lemma handleFile_handled_once_stat_succeeds_witness :
  fst (handleFile Fixtures.unreadable "f.txt" (fresh_world None)) = true /\
  logs (snd (handleFile Fixtures.unreadable "f.txt" (fresh_world None)))
    = [LogWriteFailed Fixtures.ioError] /\
  handler Fixtures.unreadable "/f.txt" (fresh_world None)
    = (tt, snd (handleFile Fixtures.unreadable "f.txt" (fresh_world None))).
Proof.
  assert (Hlazy : GetObject_lazy Fixtures.unreadable)
    by (intros b k e H; discriminate H).
  destruct (handleFile_handled_once_stat_succeeds
              Fixtures.unreadable "f.txt" (fresh_world None)
              (Fixtures.fileInfo "f.txt" 5 100) Hlazy eq_refl
              (fun H => ltac:(discriminate H)))
    as (object & Hget & Hhit & _ & _ & _ & _ & Hfail & Hhandler).
  injection Hget as <-.
  split; [exact Hhit | split].
  - exact (proj1 (Hfail Fixtures.ioError eq_refl eq_refl)).
  - exact (Hhandler "/f.txt" eq_refl).
Defined.

(** ** The directory resolver: claims *)

Section PrefixFacts.

Lemma LastIndexByte_from_absent (s : string) (c : ascii) :
  strings.ContainsByte s c = false ->
  forall i found, strings.LastIndexByte_from i s c found = found.
Proof.
  induction s as [|d s IH]; simpl; intros Habs i found; [reflexivity |].
  apply orb_false_elim in Habs as [Hd Hs].
  rewrite Hd. apply IH; assumption.
Qed.

(** The parent of a single path segment is ["."]. *)
Lemma Dir_single_segment (s : string) :
  strings.ContainsByte s "/" = false -> path.Dir s = ".".
Proof.
  intros Habs. unfold path.Dir, path.Split, strings.LastIndexByte.
  rewrite LastIndexByte_from_absent by assumption.
  unfold slice_to; simpl. destruct s; reflexivity.
Qed.

Lemma HasSuffix_slash_nonempty (s : string) :
  strings.HasSuffix s "/" = true -> s <> "".
Proof. intros H ->. discriminate H. Qed.

(** The root is listed for the keys [""] and ["/"] only. *)
Lemma normalizePrefix_root (key : string) :
  normalizePrefix key = "" <-> key = "" \/ key = "/".
Proof.
  unfold normalizePrefix. split.
  - destruct (strings.HasSuffix key "/") eqn:Hsuf; cbn [negb].
    + destruct (String.eqb_spec key "/") as [-> | Hne]; [auto |].
      intros ->. discriminate Hsuf.
    + destruct (String.eqb_spec (key ++ "/") "/") as [Heq | Hne].
      * intros _. left. destruct key as [|c key]; [reflexivity |].
        simpl in Heq. destruct key; discriminate Heq.
      * intros Heq. destruct key; discriminate Heq.
  - intros [-> | ->]; reflexivity.
Qed.

End PrefixFacts.

(** C1 as stated fails: a listing that delivers only the entry equal to the
    prefix itself sets [hasContent], so the placeholder [d/] is rendered as a
    listing holding the parent entry alone, with status 200. *)
Lemma handleDirectory_placeholder_only_handled :
  ~ (forall (minioClient : Client) (key : string) (s : World),
       (forall obj,
          In obj (ListObjects minioClient bucket (normalizePrefix key) false) ->
          Key obj = normalizePrefix key /\ Err obj = None) ->
       fst (handleDirectory minioClient key s) = false) /\
  handler Fixtures.placeholder "/d/" (fresh_world None) =
    (tt, {| resp :=
              {| rw_header := [("Content-Type", "text/html; charset=utf-8")];
                 rw_status := Some 200;
                 rw_body := [Listing "/d/" [parentEntry "d/"]];
                 rw_broken := None |};
            logs := [];
            calls := [CallStatObject bucket "d/";
                      CallListObjects bucket "d/" false] |}).
Proof.
  split; [| vm_compute; reflexivity].
  intros H.
  specialize (H Fixtures.placeholder "d/" (fresh_world None)).
  assert (Hne : fst (handleDirectory Fixtures.placeholder "d/" (fresh_world None)) = false).
  { apply H. intros obj [<- | []]. split; reflexivity. }
  vm_compute in Hne. discriminate Hne.
Qed.

(** C1, amended. When the listing of the prefix delivers no item at all, the
    directory resolver reports "not handled", renders nothing and drops the
    parent entry; the file resolver having missed, the request is answered
    with 404. A listing that delivers nothing but the entry equal to the
    prefix itself counts as content: the resolver reports "handled" and
    renders a listing without children. *)
Theorem handleDirectory_empty_listing
    (minioClient : Client) (key : string) (s : World) :
  let prefix := normalizePrefix key in
  let ch := ListObjects minioClient bucket prefix false in
  let s1 := {| resp := resp s; logs := logs s;
               calls := (calls s ++ [CallListObjects bucket prefix false])%list |} in
  (ch = [] ->
     handleDirectory minioClient key s = (false, s1) /\
     forall requestPath s0,
       strings.TrimPrefix requestPath "/" = key ->
       handleFile minioClient key s0 = (false, s) ->
       resp (snd (handler minioClient requestPath s0)) = notFound (resp s0) /\
       (rw_status (resp s0) = None ->
        final_status (resp (snd (handler minioClient requestPath s0))) = 404)) /\
  (ch <> [] ->
     (forall obj, In obj ch -> Key obj = prefix /\ Err obj = None) ->
     handleDirectory minioClient key s
       = (true, rendered ("/" ++ prefix) (parentEntries prefix) s1)).
Proof.
  cbn zeta. split.
  - intros Hch.
    assert (Hdir : handleDirectory minioClient key s =
                   (false, {| resp := resp s; logs := logs s;
                              calls := (calls s ++ [CallListObjects bucket
                                          (normalizePrefix key) false])%list |})).
    { rewrite handleDirectory_spec; cbn zeta. rewrite Hch. reflexivity. }
    split; [exact Hdir |].
    intros requestPath s0 <- Hfile.
    assert (Hresp : resp (snd (handler minioClient requestPath s0)) = notFound (resp s0)).
    { rewrite handler_not_found; rewrite ?Hfile; cbn [fst snd]; try reflexivity.
      rewrite Hdir; reflexivity. }
    split; [exact Hresp |].
    intros Hst. rewrite Hresp. apply notFound_status; assumption.
  - intros Hne Hall.
    rewrite handleDirectory_spec; cbn zeta.
    set (prefix := normalizePrefix key) in *.
    set (ch := ListObjects minioClient bucket prefix false) in *.
    assert (Herr : first_error ch = None).
    { apply first_error_none, Forall_forall. intros obj Hin. apply Hall; assumption. }
    assert (Hchildren : children prefix ch = []).
    { unfold children. clearbody ch. clear Herr Hne.
      induction ch as [|obj ch IH]; [reflexivity |]. simpl.
      unfold is_child at 1.
      destruct (Hall obj (or_introl eq_refl)) as [-> _].
      rewrite String.eqb_refl; simpl. apply IH.
      intros o Ho. apply Hall. right; assumption. }
    rewrite Herr, Hchildren, app_nil_r.
    destruct ch; [contradiction | reflexivity].
Qed.

(** The witness of C1: the key [zz] has nothing under it in the bucket that
    holds [a/b] and [a/b/c]. *)
Lemma handleDirectory_empty_listing_witness :
  handleDirectory Fixtures.ambiguous "zz" (fresh_world None)
    = (false, {| resp := fresh_response None; logs := [];
                 calls := [CallListObjects bucket "zz/" false] |}).
Proof.
  exact (proj1 (proj1 (handleDirectory_empty_listing
                         Fixtures.ambiguous "zz" (fresh_world None)) eq_refl)).
Defined.

(** C4. When any item of the listing carries an error, the directory resolver
    logs the first one and reports "not handled", whatever was delivered
    before it; the response is untouched, so nothing of a listing is
    rendered, and after a file miss the request is answered with 404. *)
Theorem handleDirectory_listing_error
    (minioClient : Client) (key : string) (s : World)
    (obj : ObjectInfo) (e : error) :
  let prefix := normalizePrefix key in
  In obj (ListObjects minioClient bucket prefix false) ->
  Err obj = Some e ->
  exists e0,
    first_error (ListObjects minioClient bucket prefix false) = Some e0 /\
    handleDirectory minioClient key s =
      (false, {| resp := resp s; logs := (logs s ++ [LogListFailed e0])%list;
                 calls := (calls s ++ [CallListObjects bucket prefix false])%list |}) /\
    forall requestPath s0,
      strings.TrimPrefix requestPath "/" = key ->
      handleFile minioClient key s0 = (false, s) ->
      let w := resp (snd (handler minioClient requestPath s0)) in
      w = notFound (resp s0) /\
      filter is_listing (rw_body w) = filter is_listing (rw_body (resp s0)) /\
      (rw_status (resp s0) = None -> final_status w = 404).
Proof.
  cbn zeta; intros Hin Herr.
  destruct (first_error_In _ obj e Hin Herr) as [e0 He0].
  exists e0. split; [exact He0 |].
  assert (Hdir : handleDirectory minioClient key s =
                 (false, {| resp := resp s; logs := (logs s ++ [LogListFailed e0])%list;
                            calls := (calls s ++ [CallListObjects bucket
                                        (normalizePrefix key) false])%list |})).
  { rewrite handleDirectory_spec; cbn zeta. rewrite He0. reflexivity. }
  split; [exact Hdir |].
  intros requestPath s0 <- Hfile.
  assert (Hresp : resp (snd (handler minioClient requestPath s0)) = notFound (resp s0)).
  { rewrite handler_not_found; rewrite ?Hfile; cbn [fst snd]; try reflexivity.
    rewrite Hdir; reflexivity. }
  rewrite Hresp. split; [reflexivity | split].
  - apply notFound_no_listing.
  - apply notFound_status.
Qed.

(** The witness of C4: a listing that delivers one item and then fails. *)
Lemma handleDirectory_listing_error_witness :
  exists e0,
    first_error (ListObjects Fixtures.flaky bucket "d/" false) = Some e0 /\
    handleDirectory Fixtures.flaky "d" (fresh_world None) =
      (false, {| resp := fresh_response None; logs := [LogListFailed e0];
                 calls := [CallListObjects bucket "d/" false] |}).
Proof.
  destruct (handleDirectory_listing_error Fixtures.flaky "d" (fresh_world None)
              (Fixtures.errInfo Fixtures.ioError) Fixtures.ioError
              (or_intror (or_introl eq_refl)) eq_refl)
    as (e0 & He0 & Hdir & _).
  exists e0. split; [exact He0 | exact Hdir].
Defined.

(** C6. In a listing without errors, every item is handled on its own, in
    order: the item whose key equals the prefix yields no entry; any other
    item yields exactly one entry, a directory (basename, size ["-"], zero
    time) when its storage class is empty and a file (basename, formatted
    size, the item's modification time) otherwise. *)
Theorem handleDirectory_loop_entries
    (prefix : string) (ch : list ObjectInfo)
    (entries : list DirEntry) (hasContent : bool) (s : World) :
  Forall (fun obj => Err obj = None) ch ->
  let entry (obj : ObjectInfo) : list DirEntry :=
    if String.eqb (Key obj) prefix then []
    else if String.eqb (StorageClass obj) "" then
      [{| URL := "/" ++ Key obj; Name := path.Base (Key obj); Size := "-";
          ModTime := Time_zero; IsDir := true; Icon_ := IconDir |}]
    else
      [{| URL := "/" ++ Key obj; Name := path.Base (Key obj);
          Size := formatSize (minio.Size obj); ModTime := LastModified obj;
          IsDir := false; Icon_ := IconFile |}] in
  handleDirectory_loop prefix ch entries hasContent s =
    (Some ((entries ++ flat_map entry ch)%list,
           match ch with [] => hasContent | _ :: _ => true end), s) /\
  flat_map entry ch = children prefix ch /\
  List.length (flat_map entry ch)
    = List.length (filter (fun obj => negb (String.eqb (Key obj) prefix)) ch).
Proof.
  intros Hok entry.
  assert (Hflat : flat_map entry ch = children prefix ch).
  { unfold children, is_child, childEntry. clear Hok.
    induction ch as [|obj ch IH]; [reflexivity |]. simpl.
    unfold entry at 1.
    destruct (String.eqb (Key obj) prefix); simpl; [exact IH |].
    rewrite IH. destruct (String.eqb (StorageClass obj) ""); reflexivity. }
  split; [| split].
  - rewrite handleDirectory_loop_spec, (first_error_none ch Hok), Hflat. reflexivity.
  - exact Hflat.
  - rewrite Hflat. unfold children, is_child. apply length_map.
Qed.

(** The witness of C6: the placeholder [a/] itself, a file and a
    sub-directory listed under [a/]. *)
Lemma handleDirectory_loop_entries_witness :
  handleDirectory_loop "a/"
    [Fixtures.fileInfo "a/" 0 50; Fixtures.fileInfo "a/b" 1536 100;
     Fixtures.prefixInfo "a/b/"] [] false (fresh_world None)
  = (Some ([{| URL := "/a/b"; Name := "b"; Size := "1.5 KB"; ModTime := 100;
               IsDir := false; Icon_ := IconFile |};
            {| URL := "/a/b/"; Name := "b"; Size := "-"; ModTime := Time_zero;
               IsDir := true; Icon_ := IconDir |}], true),
     fresh_world None).
Proof.
  assert (Hok : Forall (fun obj => Err obj = None)
                  [Fixtures.fileInfo "a/" 0 50; Fixtures.fileInfo "a/b" 1536 100;
                   Fixtures.prefixInfo "a/b/"])
    by (repeat constructor).
  destruct (handleDirectory_loop_entries "a/" _ [] false (fresh_world None) Hok)
    as [Hloop _].
  rewrite Hloop. vm_compute. reflexivity.
Defined.

(** C10. For a prefix other than the root whose slash-trimmed form holds no
    slash (a top-level directory such as [a/]), the parent of the single
    segment is ["."], so the target of the [..] entry is ["/./"], not ["/"];
    that is the first entry of the rendered listing. *)
Theorem parentEntry_of_top_level_directory
    (minioClient : Client) (key : string) (s : World) :
  let prefix := normalizePrefix key in
  let ch := ListObjects minioClient bucket prefix false in
  prefix <> "" ->
  strings.ContainsByte (strings.TrimSuffix prefix "/") "/" = false ->
  path.Dir (strings.TrimSuffix prefix "/") = "." /\
  URL (parentEntry prefix) = "/./" /\
  URL (parentEntry prefix) <> "/" /\
  (ch <> [] -> Forall (fun obj => Err obj = None) ch ->
   rw_broken (resp s) = None ->
   exists kids,
     rw_body (resp (snd (handleDirectory minioClient key s)))
       = (rw_body (resp s)
            ++ [Listing ("/" ++ prefix)
                  ({| URL := "/./"; Name := ".."; Size := "-"; ModTime := Time_zero;
                      IsDir := true; Icon_ := IconDir |} :: kids)])%list).
Proof.
  cbn zeta. intros Hp Hseg.
  pose proof (Dir_single_segment _ Hseg) as Hdir.
  assert (Hurl : URL (parentEntry (normalizePrefix key)) = "/./").
  { unfold parentEntry; cbn [URL]. rewrite Hdir. reflexivity. }
  split; [exact Hdir | split; [exact Hurl | split]].
  - rewrite Hurl. discriminate.
  - intros Hne Hok Hb.
    rewrite (handleDirectory_renders minioClient key s Hne Hok). cbn [snd].
    rewrite rendered_body by exact Hb. cbn [resp].
    unfold parentEntries. apply String.eqb_neq in Hp. rewrite Hp.
    unfold parentEntry. rewrite Hdir. eexists. reflexivity.
Qed.

(** The witness of C10: the listing of [a/]. *)
Lemma parentEntry_of_top_level_directory_witness :
  path.Dir (strings.TrimSuffix (normalizePrefix "a") "/") = "." /\
  URL (parentEntry (normalizePrefix "a")) = "/./".
Proof.
  destruct (parentEntry_of_top_level_directory Fixtures.ambiguous "a" (fresh_world None)
              ltac:(discriminate) eq_refl)
    as (Hdir & Hurl & _).
  split; [exact Hdir | exact Hurl].
Defined.

(** ** The library models on the tables of Go's own tests *)

Example Clean_table :
  map path.Clean
    [""; "abc"; "abc/def"; "a/b/c"; "."; ".."; "../.."; "../../abc"; "/abc"; "/";
     "abc/"; "abc/def/"; "a/b/c/"; "./"; "../"; "../../"; "/abc/";
     "abc//def//ghi"; "//abc"; "///abc"; "//abc//"; "abc//";
     "abc/./def"; "/./abc/def"; "abc/.";
     "abc/def/ghi/../jkl"; "abc/def/../ghi/../jkl"; "abc/def/.."; "abc/def/../..";
     "/abc/def/../.."; "abc/def/../../.."; "/abc/def/../../..";
     "abc/def/../../../ghi/jkl/../../../mno";
     "abc/./../def"; "abc//./../def"; "abc/../../././../def"]
  = ["."; "abc"; "abc/def"; "a/b/c"; "."; ".."; "../.."; "../../abc"; "/abc"; "/";
     "abc"; "abc/def"; "a/b/c"; "."; ".."; "../.."; "/abc";
     "abc/def/ghi"; "/abc"; "/abc"; "/abc"; "abc";
     "abc/def"; "/abc/def"; "abc";
     "abc/def/jkl"; "abc/jkl"; "abc"; ".";
     "/"; ".."; "/";
     "../../mno";
     "def"; "def"; "../../def"].
Proof. vm_compute. reflexivity. Qed.

Example Dir_table :
  map path.Dir [""; "//a"; "/a"; "/"; "///"; "abc"; "abc/def"; "abc////def";
                "a/b/.x"; "a/b/c."; "a/b/c.x"]
  = ["."; "/"; "/"; "/"; "/"; "."; "abc"; "abc"; "a/b"; "a/b"; "a/b"].
Proof. vm_compute. reflexivity. Qed.

Example Base_table :
  map path.Base [""; "."; "/."; "/"; "////"; "x/"; "abc"; "abc/def"; "a/b/.x";
                 "a/b/c."; "a/b/c.x"]
  = ["."; "."; "."; "/"; "/"; "x"; "abc"; "def"; ".x"; "c."; "c.x"].
Proof. vm_compute. reflexivity. Qed.

Example Ext_table :
  map path.Ext ["path.go"; "path.pb.go"; "a.dir/b"; "a.dir/b.go"; "a.dir/"]
  = [".go"; ".go"; ""; ".go"; ""].
Proof. vm_compute. reflexivity. Qed.

Example Trim_table :
  (strings.TrimPrefix "//a" "/", strings.TrimPrefix "a/" "/",
   strings.TrimSuffix "a//" "/", strings.TrimSuffix "a" "/",
   strings.HasSuffix "" "/", strings.HasSuffix "/" "/")
  = ("/a", "a/", "a/", "a", false, true).
Proof. vm_compute. reflexivity. Qed.

(** Sizes around the rounding and unit boundaries. *)
Example formatSize_table :
  map formatSize [1075; 1280; 1792; 1048575; 123456789; 1099511627776;
                  1152921504606846975; 9223372036854775807]
  = ["1.0 KB"; "1.2 KB"; "1.8 KB"; "1024.0 KB"; "117.7 MB"; "1.0 TB";
     "1024.0 PB"; "8.0 EB"].
Proof. vm_compute. reflexivity. Qed.

(** * Further properties of the resolvers *)

Section ResolverFacts.

Variable minioClient : Client.

(** What a hit of the file resolver presupposes. *)
Lemma handleFile_hit_inv (key : string) (s : World) :
  fst (handleFile minioClient key s) = true ->
  exists objInfo object,
    StatObject minioClient bucket key = (objInfo, None) /\
    ContentType objInfo <> dirContentType /\
    GetObject minioClient bucket key = inl object.
Proof.
  intros Hhit.
  destruct (StatObject minioClient bucket key) as [objInfo err] eqn:Hstat.
  destruct (String.eqb_spec (ContentType objInfo) dirContentType) as [Hct | Hct].
  - rewrite handleFile_placeholder in Hhit by (rewrite Hstat; exact Hct).
    discriminate.
  - destruct err as [e|].
    + destruct (handleFile_stat_error minioClient key s objInfo e Hstat) as [Hf _].
      congruence.
    + destruct (GetObject minioClient bucket key) as [object|e] eqn:Hget.
      * exists objInfo, object. auto.
      * rewrite (handleFile_get_error minioClient key s objInfo e Hstat Hct Hget) in Hhit.
        discriminate.
Qed.

(** The content call is made exactly when the metadata call allows it. *)
Lemma handleFile_calls_exact (key : string) (s : World) :
  calls (snd (handleFile minioClient key s))
  = (calls s ++ CallStatObject bucket key ::
       (if stat_allows_get (StatObject minioClient bucket key)
        then [CallGetObject bucket key] else []))%list.
Proof.
  unfold stat_allows_get.
  destruct (StatObject minioClient bucket key) as [objInfo err] eqn:Hstat.
  cbn [fst snd].
  destruct (String.eqb_spec (ContentType objInfo) dirContentType) as [Hct | Hct].
  - rewrite handleFile_placeholder by (rewrite Hstat; exact Hct).
    destruct err; reflexivity.
  - destruct err as [e|]; cbn [negb].
    + apply (handleFile_stat_error minioClient key s objInfo e Hstat).
    + destruct (GetObject minioClient bucket key) as [object|e] eqn:Hget.
      * apply (handleFile_served minioClient key s objInfo object Hstat Hct Hget).
      * rewrite (handleFile_get_error minioClient key s objInfo e Hstat Hct Hget).
        reflexivity.
Qed.

End ResolverFacts.

(** X1. The file resolver reports "handled" exactly when the metadata call
    succeeds, the content type is not the directory marker and the content
    call succeeds. *)
Theorem handleFile_handled_iff (minioClient : Client) (key : string) (s : World) :
  fst (handleFile minioClient key s) = true <->
  (exists objInfo object,
     StatObject minioClient bucket key = (objInfo, None) /\
     ContentType objInfo <> dirContentType /\
     GetObject minioClient bucket key = inl object).
Proof.
  split.
  - apply handleFile_hit_inv.
  - intros (objInfo & object & Hstat & Hct & Hget).
    apply (handleFile_served minioClient key s objInfo object Hstat Hct Hget).
Qed.

(** X2. A key the store reports as missing ("NoSuchKey") is a silent miss of
    the file resolver: nothing is logged, nothing is written and no content
    call is made. *)
Theorem handleFile_no_such_key_silent
    (minioClient : Client) (key : string) (s : World)
    (objInfo : ObjectInfo) (e : error) :
  StatObject minioClient bucket key = (objInfo, Some e) ->
  Code (ToErrorResponse e) = "NoSuchKey" ->
  handleFile minioClient key s =
    (false, {| resp := resp s; logs := logs s;
               calls := (calls s ++ [CallStatObject bucket key])%list |}).
Proof.
  intros Hstat Hcode. unfold handleFile; run. rewrite Hstat.
  destruct (String.eqb (ContentType objInfo) dirContentType); [reflexivity |].
  rewrite Hcode. reflexivity.
Qed.

Lemma handleFile_no_such_key_silent_witness :
  handleFile Fixtures.ambiguous "zz" (fresh_world None)
    = (false, {| resp := fresh_response None; logs := [];
                 calls := [CallStatObject bucket "zz"] |}).
Proof.
  exact (handleFile_no_such_key_silent Fixtures.ambiguous "zz" (fresh_world None)
           Fixtures.zeroInfo Fixtures.noSuchKey eq_refl eq_refl).
Defined.

(** X3. A resolver that reports "not handled" has written nothing: the
    headers, the status and the body of the response are as they were. *)
Theorem resolver_miss_writes_nothing (minioClient : Client) (key : string) (s : World) :
  (fst (handleFile minioClient key s) = false ->
   resp (snd (handleFile minioClient key s)) = resp s) /\
  (fst (handleDirectory minioClient key s) = false ->
   resp (snd (handleDirectory minioClient key s)) = resp s).
Proof.
  split.
  - apply handleFile_miss_resp.
  - apply handleDirectory_miss_resp.
Qed.

Lemma resolver_miss_writes_nothing_witness :
  resp (snd (handleFile Fixtures.flaky "f.txt" (fresh_world None))) = fresh_response None /\
  resp (snd (handleDirectory Fixtures.flaky "f.txt" (fresh_world None))) = fresh_response None.
Proof.
  split.
  - exact (proj1 (resolver_miss_writes_nothing Fixtures.flaky "f.txt" (fresh_world None))
             eq_refl).
  - exact (proj2 (resolver_miss_writes_nothing Fixtures.flaky "f.txt" (fresh_world None))
             eq_refl).
Defined.

Section HeaderFacts.

Lemma filter_Header_Del_same (key : string) (h : list (string * string)) :
  filter (fun kv => String.eqb (fst kv) key) (Header_Del key h) = [].
Proof.
  unfold Header_Del. induction h as [|kv h IH]; [reflexivity |]. simpl.
  destruct (String.eqb (fst kv) key) eqn:E; simpl; [exact IH |].
  rewrite E. exact IH.
Qed.

Lemma filter_Header_Del_other (key key' : string) (h : list (string * string)) :
  key <> key' ->
  filter (fun kv => String.eqb (fst kv) key) (Header_Del key' h)
  = filter (fun kv => String.eqb (fst kv) key) h.
Proof.
  intros Hne. unfold Header_Del. induction h as [|kv h IH]; [reflexivity |]. simpl.
  destruct (String.eqb_spec (fst kv) key') as [E' | E']; simpl.
  - destruct (String.eqb_spec (fst kv) key) as [E | E]; [congruence | exact IH].
  - destruct (String.eqb (fst kv) key); [f_equal |]; exact IH.
Qed.

End HeaderFacts.

(** X4. When a file is served, the response carries exactly one
    [Content-Length] header, the decimal size from the metadata, and exactly
    one [Content-Type] header, whatever the header map held before; for a
    key in the ASCII range its value is the type of the key's extension. *)
Theorem handleFile_sets_headers
    (minioClient : Client) (key : string) (s : World)
    (objInfo : ObjectInfo) (object : Object) :
  StatObject minioClient bucket key = (objInfo, None) ->
  ContentType objInfo <> dirContentType ->
  GetObject minioClient bucket key = inl object ->
  let h := rw_header (resp (snd (handleFile minioClient key s))) in
  Header_count "Content-Type" h = 1%nat /\
  Header_Get "Content-Length" h = Some (fmt.d (minio.Size objInfo)) /\
  Header_count "Content-Length" h = 1%nat /\
  (is_ascii key = true -> Header_Get "Content-Type" h = Some (getContentType key)).
Proof.
  intros Hstat Hct Hget.
  destruct (handleFile_served minioClient key s objInfo object Hstat Hct Hget)
    as (_ & _ & _ & _ & Hh & _).
  cbn zeta. rewrite Hh. unfold Header_Get, Header_count.
  rewrite !filter_app.
  rewrite filter_Header_Del_same.
  rewrite filter_Header_Del_other by discriminate.
  rewrite filter_app, filter_Header_Del_same.
  repeat split; reflexivity.
Qed.

Lemma handleFile_sets_headers_witness :
  Header_Get "Content-Type"
    (rw_header (resp (snd (handleFile Fixtures.ambiguous "a/b" (fresh_world None)))))
  = Some (getContentType "a/b") /\
  Header_Get "Content-Length"
    (rw_header (resp (snd (handleFile Fixtures.ambiguous "a/b" (fresh_world None)))))
  = Some "5".
Proof.
  destruct (handleFile_sets_headers Fixtures.ambiguous "a/b"
              (fresh_world None) (Fixtures.fileInfo "a/b" 5 100)
              {| obj_bytes := "hello"; obj_err := None |}
              eq_refl (fun H => ltac:(discriminate H)) eq_refl)
    as (_ & Hlen & _ & Htype).
  split; [exact (Htype eq_refl) | exact Hlen].
Defined.

Section SuffixFacts.

Lemma HasSuffix_cons (c : ascii) (s : string) :
  strings.HasSuffix (String c s) "/"
  = match s with
    | EmptyString => Ascii.eqb c "/"
    | String _ _ => strings.HasSuffix s "/"
    end.
Proof.
  unfold strings.HasSuffix. destruct s as [|d s]; simpl.
  - destruct (Ascii.eqb_spec c "/") as [-> | Hne]; [reflexivity |].
    destruct (String.eqb_spec (String c "") "/") as [E | E]; [| reflexivity].
    inversion E; contradiction.
  - rewrite Nat.sub_0_r. reflexivity.
Qed.

Lemma HasSuffix_append_slash (s : string) : strings.HasSuffix (s ++ "/") "/" = true.
Proof.
  induction s as [|c s IH]; [reflexivity |].
  change (String c s ++ "/") with (String c (s ++ "/")).
  rewrite HasSuffix_cons. destruct (s ++ "/") eqn:E; [| exact IH].
  destruct s; discriminate E.
Qed.

Lemma append_slash_not_empty (s : string) : s ++ "/" <> "".
Proof. destruct s; discriminate. Qed.

(** The listed prefix is the key itself for a key that ends in a slash, the
    key and a slash otherwise; only the keys [""] and ["/"] give the root. *)
Lemma normalizePrefix_cases (key : string) :
  (strings.HasSuffix key "/" = true /\ key <> "/" /\ normalizePrefix key = key) \/
  (strings.HasSuffix key "/" = false /\ key <> "" /\ normalizePrefix key = key ++ "/") \/
  ((key = "" \/ key = "/") /\ normalizePrefix key = "").
Proof.
  unfold normalizePrefix.
  destruct (strings.HasSuffix key "/") eqn:Hsuf; cbn [negb].
  - destruct (String.eqb_spec key "/") as [-> | Hne]; auto.
  - destruct (String.eqb_spec (key ++ "/") "/") as [E | E].
    + right; right. split; [| reflexivity]. left.
      destruct key as [|c key]; [reflexivity |].
      simpl in E. destruct key; discriminate E.
    + right; left. repeat split; try reflexivity. intros ->. apply E. reflexivity.
Qed.

Lemma normalizePrefix_fixed (key : string) :
  strings.HasSuffix key "/" = true -> key <> "/" -> normalizePrefix key = key.
Proof.
  intros Hs Hne. unfold normalizePrefix. rewrite Hs; cbn [negb].
  apply String.eqb_neq in Hne. rewrite Hne. reflexivity.
Qed.

End SuffixFacts.

(** X5. The directory resolver reports "handled" exactly when the listing of
    the prefix delivers at least one item and no item carries an error. *)
Theorem handleDirectory_handled_iff (minioClient : Client) (key : string) (s : World) :
  let ch := ListObjects minioClient bucket (normalizePrefix key) false in
  fst (handleDirectory minioClient key s) = true <->
  ch <> [] /\ Forall (fun obj => Err obj = None) ch.
Proof.
  cbn zeta. rewrite handleDirectory_spec; cbn zeta.
  set (ch := ListObjects minioClient bucket (normalizePrefix key) false).
  split.
  - destruct (first_error ch) as [e|] eqn:Herr; [discriminate |].
    intros Hhit. split.
    + destruct ch; [discriminate Hhit | discriminate].
    + clear Hhit. induction ch as [|obj ch IH]; constructor; simpl in Herr;
        destruct (Err obj); try discriminate; auto.
  - intros [Hne Hok]. rewrite (first_error_none ch Hok).
    destruct ch; [contradiction | reflexivity].
Qed.

(** X6. A trailing slash makes no difference to the directory resolver: for a
    key that does not end in a slash, [key] and [key/] give the same run. *)
Theorem handleDirectory_trailing_slash (minioClient : Client) (key : string) (s : World) :
  strings.HasSuffix key "/" = false ->
  normalizePrefix (key ++ "/") = normalizePrefix key /\
  handleDirectory minioClient (key ++ "/") s = handleDirectory minioClient key s.
Proof.
  intros Hsuf.
  assert (Hn : normalizePrefix (key ++ "/") = normalizePrefix key).
  { unfold normalizePrefix. rewrite Hsuf, HasSuffix_append_slash. reflexivity. }
  split; [exact Hn |].
  unfold handleDirectory. rewrite Hn. reflexivity.
Qed.

Lemma handleDirectory_trailing_slash_witness :
  handleDirectory Fixtures.ambiguous "a/" (fresh_world None)
  = handleDirectory Fixtures.ambiguous "a" (fresh_world None).
Proof.
  exact (proj2 (handleDirectory_trailing_slash Fixtures.ambiguous "a"
                  (fresh_world None) eq_refl)).
Defined.

(** X7. The prefix the directory resolver lists is either the empty string
    (the root) or ends in a slash, and is never ["/"]; normalising it again
    changes nothing, and a key that already ends in a slash, other than
    ["/"], is listed as it is. *)
Theorem normalizePrefix_shape (key : string) :
  (normalizePrefix key = "" \/ strings.HasSuffix (normalizePrefix key) "/" = true) /\
  normalizePrefix key <> "/" /\
  normalizePrefix (normalizePrefix key) = normalizePrefix key /\
  (strings.HasSuffix key "/" = true -> key <> "/" -> normalizePrefix key = key).
Proof.
  split; [| split; [| split]]; [| | | apply normalizePrefix_fixed].
  - destruct (normalizePrefix_cases key) as
      [(Hs & Hne & ->) | [(Hs & Hne & ->) | (_ & ->)]];
      auto using HasSuffix_append_slash.
  - destruct (normalizePrefix_cases key) as
      [(Hs & Hne & ->) | [(Hs & Hne & ->) | (_ & ->)]];
      [assumption | | discriminate].
    intros E; destruct key as [|c [|d key]]; try discriminate E; congruence.
  - destruct (normalizePrefix_cases key) as
      [(Hs & Hne & ->) | [(Hs & Hne & ->) | (_ & ->)]]; [| | reflexivity].
    + apply normalizePrefix_fixed; assumption.
    + apply normalizePrefix_fixed; [apply HasSuffix_append_slash |].
      intros E; destruct key as [|c [|d key]]; try discriminate E; congruence.
Qed.

Lemma normalizePrefix_shape_witness :
  normalizePrefix "a/b/" = "a/b/".
Proof.
  exact (proj2 (proj2 (proj2 (normalizePrefix_shape "a/b/"))) eq_refl
           (fun H => ltac:(discriminate H))).
Defined.

(** X8. Every listing the directory resolver writes has the path header
    ["/"] followed by the prefix, and each of its rows is consistent: a
    directory row has size ["-"], the zero time and the directory icon, a
    file row has the file icon. *)
Theorem handleDirectory_rows_consistent
    (minioClient : Client) (key : string) (s : World)
    (Path : string) (Entries : list DirEntry) :
  In (Listing Path Entries) (rw_body (resp (snd (handleDirectory minioClient key s)))) ->
  In (Listing Path Entries) (rw_body (resp s)) \/
  (Path = "/" ++ normalizePrefix key /\ Forall entry_consistent Entries).
Proof.
  rewrite handleDirectory_spec; cbn zeta.
  set (prefix := normalizePrefix key).
  set (ch := ListObjects minioClient bucket prefix false).
  destruct (first_error ch); [auto |].
  destruct ch as [|obj0 ch0] eqn:Hch; [auto |]. rewrite <- Hch. clear Hch.
  unfold rendered; cbn [snd resp rw_body].
  destruct (rw_broken (resp s)); cbn [resp rw_body]; [auto |].
  intros Hin. apply in_app_or in Hin as [Hin | [Heq | []]]; [auto |].
  right. inversion Heq; subst Path Entries. split; [reflexivity |].
  apply Forall_app. split.
  - unfold parentEntries. destruct (String.eqb prefix ""); constructor; [| constructor].
    unfold entry_consistent; simpl. auto.
  - unfold children. apply Forall_map, Forall_forall. intros obj _.
    unfold childEntry, entry_consistent.
    destruct (String.eqb (StorageClass obj) ""); simpl; auto.
Qed.

Lemma handleDirectory_rows_consistent_witness :
  Forall entry_consistent
    [parentEntry "a/"; fileEntry (Fixtures.fileInfo "a/b" 5 100);
     dirEntry (Fixtures.prefixInfo "a/b/")].
Proof.
  destruct (handleDirectory_rows_consistent Fixtures.ambiguous "a" (fresh_world None)
              "/a/"
              [parentEntry "a/"; fileEntry (Fixtures.fileInfo "a/b" 5 100);
               dirEntry (Fixtures.prefixInfo "a/b/")]
              (or_introl eq_refl)) as [[] | [_ H]].
  exact H.
Defined.

(** X9. The target of a row leads back to the listed item: stripped of its
    leading slash, as the handler does, the URL is the item's key; and for
    an item whose key ends in a slash the directory resolver then lists that
    very key. *)
Theorem childEntry_link_roundtrip (obj : ObjectInfo) :
  strings.TrimPrefix (URL (childEntry obj)) "/" = Key obj /\
  (strings.HasSuffix (Key obj) "/" = true -> Key obj <> "/" ->
   normalizePrefix (strings.TrimPrefix (URL (childEntry obj)) "/") = Key obj).
Proof.
  assert (Hurl : strings.TrimPrefix (URL (childEntry obj)) "/" = Key obj).
  { unfold childEntry. destruct (String.eqb (StorageClass obj) ""); cbn [URL dirEntry fileEntry];
      apply TrimPrefix_slash. }
  split; [exact Hurl |].
  intros Hs Hne. rewrite Hurl. apply normalizePrefix_fixed; assumption.
Qed.

Lemma childEntry_link_roundtrip_witness :
  normalizePrefix
    (strings.TrimPrefix (URL (childEntry (Fixtures.prefixInfo "a/b/"))) "/") = "a/b/".
Proof.
  exact (proj2 (childEntry_link_roundtrip (Fixtures.prefixInfo "a/b/")) eq_refl
           (fun H => ltac:(discriminate H))).
Defined.

Section HandlerFacts.

Variable minioClient : Client.

(** The directory resolver makes one store call, a non-recursive listing. *)
Lemma handleDirectory_calls (key : string) (s : World) :
  calls (snd (handleDirectory minioClient key s))
  = (calls s ++ [CallListObjects bucket (normalizePrefix key) false])%list.
Proof.
  rewrite handleDirectory_spec; cbn zeta.
  destruct (first_error _); [reflexivity |].
  destruct (ListObjects _ _ _ _); [reflexivity |].
  unfold rendered; cbn [snd]. destruct (rw_broken _); reflexivity.
Qed.

(** A hit of the directory resolver on an uncommitted response ends as 200. *)
Lemma handleDirectory_hit_status (key : string) (s : World) :
  rw_status (resp s) = None ->
  fst (handleDirectory minioClient key s) = true ->
  final_status (resp (snd (handleDirectory minioClient key s))) = 200.
Proof.
  intros Hst. rewrite handleDirectory_spec; cbn zeta.
  destruct (first_error _); [discriminate |].
  destruct (ListObjects _ _ _ _); [discriminate |]. intros _.
  unfold rendered, final_status; cbn [snd resp rw_status].
  destruct (rw_broken _); cbn [resp rw_status]; rewrite Hst; reflexivity.
Qed.

(** A hit of the file resolver on an uncommitted response ends as 200. *)
Lemma handleFile_hit_status (key : string) (s : World) :
  rw_status (resp s) = None ->
  fst (handleFile minioClient key s) = true ->
  final_status (resp (snd (handleFile minioClient key s))) = 200.
Proof.
  intros Hst Hhit.
  destruct (handleFile_hit_inv minioClient key s Hhit)
    as (objInfo & object & Hstat & Hct & Hget).
  apply (handleFile_served minioClient key s objInfo object Hstat Hct Hget).
  exact Hst.
Qed.

End HandlerFacts.

(** X10. On a response that is not yet committed, a request ends with status
    200 or 404, and with 404 exactly when both resolvers miss. *)
Theorem handler_status (minioClient : Client) (requestPath : string) (s : World) :
  rw_status (resp s) = None ->
  let key := strings.TrimPrefix requestPath "/" in
  let file := handleFile minioClient key s in
  let dir := handleDirectory minioClient key (snd file) in
  let status := final_status (resp (snd (handler minioClient requestPath s))) in
  (status = 200 \/ status = 404) /\
  (status = 404 <-> fst file = false /\ fst dir = false).
Proof.
  intros Hst. cbn zeta.
  set (key := strings.TrimPrefix requestPath "/").
  destruct (fst (handleFile minioClient key s)) eqn:Hfile.
  - rewrite (handler_file_hit minioClient requestPath s Hfile). cbn [snd]. fold key.
    rewrite (handleFile_hit_status minioClient key s Hst Hfile).
    split; [auto |]. split; [discriminate | intros [H _]; discriminate H].
  - pose proof (handleFile_miss_resp minioClient key s Hfile) as Hresp.
    rewrite (handler_file_miss minioClient requestPath s Hfile). fold key.
    set (s1 := snd (handleFile minioClient key s)) in *.
    assert (Hst1 : rw_status (resp s1) = None) by (rewrite Hresp; exact Hst).
    destruct (fst (handleDirectory minioClient key s1)) eqn:Hdir.
    + rewrite (afterFileMiss_hit minioClient key s1 Hdir). cbn [snd].
      rewrite (handleDirectory_hit_status minioClient key s1 Hst1 Hdir).
      split; [auto |]. split; [discriminate | intros [_ H]; discriminate H].
    + rewrite (afterFileMiss_miss minioClient key s1 Hdir). cbn [snd resp].
      rewrite (notFound_status _ Hst1). split; [auto |]. split; auto.
Qed.

Lemma handler_status_witness :
  final_status (resp (snd (handler Fixtures.ambiguous "/zz" (fresh_world None)))) = 404.
Proof.
  apply (proj2 (handler_status Fixtures.ambiguous "/zz" (fresh_world None) eq_refl)).
  split; reflexivity.
Defined.

(** X11. The store calls of a request, in order: one metadata call for the
    key; one content call, made exactly when the metadata call succeeded on a
    key that is no directory placeholder; and, only after a miss of the file
    resolver, one non-recursive listing of the normalised prefix. *)
Theorem handler_store_calls (minioClient : Client) (requestPath : string) (s : World) :
  let key := strings.TrimPrefix requestPath "/" in
  calls (snd (handler minioClient requestPath s))
  = (calls s
       ++ CallStatObject bucket key
       :: (if stat_allows_get (StatObject minioClient bucket key)
           then [CallGetObject bucket key] else [])
       ++ (if fst (handleFile minioClient key s) then []
           else [CallListObjects bucket (normalizePrefix key) false]))%list.
Proof.
  cbn zeta. set (key := strings.TrimPrefix requestPath "/").
  pose proof (handleFile_calls_exact minioClient key s) as Hcalls.
  destruct (fst (handleFile minioClient key s)) eqn:Hfile.
  - rewrite (handler_file_hit minioClient requestPath s Hfile). cbn [snd]. fold key.
    rewrite Hcalls, app_nil_r. reflexivity.
  - rewrite (handler_file_miss minioClient requestPath s Hfile). fold key.
    set (s1 := snd (handleFile minioClient key s)) in *.
    pose proof (handleDirectory_calls minioClient key s1) as Hdcalls.
    assert (Hafter : calls (snd (afterFileMiss minioClient key s1))
                     = calls (snd (handleDirectory minioClient key s1))).
    { destruct (fst (handleDirectory minioClient key s1)) eqn:Hdir.
      - rewrite (afterFileMiss_hit minioClient key s1 Hdir). reflexivity.
      - rewrite (afterFileMiss_miss minioClient key s1 Hdir). reflexivity. }
    rewrite Hafter, Hdcalls, Hcalls.
    rewrite <- app_assoc. cbn [app]. reflexivity.
Qed.

(** X12. A request for a key that simply does not exist (the metadata call
    says "NoSuchKey" and the listing of the prefix is empty) is answered
    with the not-found response and logs nothing. *)
Theorem handler_clean_miss_silent
    (minioClient : Client) (requestPath : string) (s : World)
    (objInfo : ObjectInfo) (e : error) :
  let key := strings.TrimPrefix requestPath "/" in
  StatObject minioClient bucket key = (objInfo, Some e) ->
  Code (ToErrorResponse e) = "NoSuchKey" ->
  ListObjects minioClient bucket (normalizePrefix key) false = [] ->
  handler minioClient requestPath s
  = (tt, {| resp := notFound (resp s); logs := logs s;
            calls := (calls s ++ [CallStatObject bucket key;
                                  CallListObjects bucket (normalizePrefix key) false])%list |}).
Proof.
  cbn zeta. set (key := strings.TrimPrefix requestPath "/").
  intros Hstat Hcode Hlist.
  assert (Hfile : handleFile minioClient key s =
                  (false, {| resp := resp s; logs := logs s;
                             calls := (calls s ++ [CallStatObject bucket key])%list |})).
  { unfold handleFile; run. rewrite Hstat.
    destruct (String.eqb (ContentType objInfo) dirContentType); [reflexivity |].
    rewrite Hcode. reflexivity. }
  rewrite handler_file_miss; fold key; rewrite Hfile; [| reflexivity]. cbn [snd].
  assert (Hdir : forall s1, handleDirectory minioClient key s1 =
                   (false, {| resp := resp s1; logs := logs s1;
                              calls := (calls s1 ++ [CallListObjects bucket
                                          (normalizePrefix key) false])%list |})).
  { intros s1. rewrite handleDirectory_spec; cbn zeta. rewrite Hlist. reflexivity. }
  rewrite afterFileMiss_miss; rewrite Hdir; [| reflexivity].
  cbn [snd resp logs calls]. rewrite <- app_assoc. reflexivity.
Qed.

Lemma handler_clean_miss_silent_witness :
  handler Fixtures.ambiguous "/zz" (fresh_world None)
  = (tt, {| resp := notFound (fresh_response None); logs := [];
            calls := [CallStatObject bucket "zz";
                      CallListObjects bucket "zz/" false] |}).
Proof.
  exact (handler_clean_miss_silent Fixtures.ambiguous "/zz" (fresh_world None)
           Fixtures.zeroInfo Fixtures.noSuchKey eq_refl eq_refl eq_refl).
Defined.

(** * Further properties of the content type and the size formatter *)

Section ExtFacts.

Lemma byte_at_cons (c : ascii) (s : string) (i : nat) :
  byte_at (String c s) (S i) = byte_at s i.
Proof. reflexivity. Qed.

Lemma byte_at_absent (s : string) (c : ascii) :
  strings.ContainsByte s c = false -> c <> zero ->
  forall i, Ascii.eqb (byte_at s i) c = false.
Proof.
  intros Habs Hc. induction s as [|d s IH]; intros i.
  - replace (byte_at "" i) with zero by (destruct i; reflexivity).
    apply Ascii.eqb_neq. congruence.
  - simpl in Habs. apply orb_false_elim in Habs as [Hd Hs].
    destruct i as [|i]; [exact Hd |]. rewrite byte_at_cons. apply IH. exact Hs.
Qed.

Lemma Ext_from_no_dot (path : string) (n : nat) :
  strings.ContainsByte path "." = false -> path.Ext_from n path = "".
Proof.
  intros Habs. induction n as [|n IH]; [reflexivity |]. simpl.
  rewrite (byte_at_absent path "." Habs) by discriminate.
  destruct (Ascii.eqb (byte_at path n) "/"); [reflexivity | exact IH].
Qed.

Lemma length_append (a b : string) :
  String.length (a ++ b) = (String.length a + String.length b)%nat.
Proof. induction a as [|c a IH]; simpl; [reflexivity | rewrite IH; reflexivity]. Qed.

Lemma byte_at_append_r (a b : string) (i : nat) :
  byte_at (a ++ b) (String.length a + i) = byte_at b i.
Proof. induction a as [|c a IH]; [reflexivity | exact IH]. Qed.

Lemma byte_at_separator (a b : string) :
  byte_at (a ++ "/" ++ b) (String.length a) = "/"%char.
Proof. induction a as [|c a IH]; [reflexivity | exact IH]. Qed.

Lemma substring_append_r (a b : string) (i m : nat) :
  substring (String.length a + i) m (a ++ b) = substring i m b.
Proof. induction a as [|c a IH]; [reflexivity | exact IH]. Qed.

(** The extension is looked for behind the last slash only. *)
Lemma Ext_append (dir rest : string) : path.Ext (dir ++ "/" ++ rest) = path.Ext rest.
Proof.
  unfold path.Ext.
  change (dir ++ "/" ++ rest) with (dir ++ ("/" ++ rest)).
  rewrite length_append. change (String.length ("/" ++ rest)) with (S (String.length rest)).
  assert (H : forall k, (k <= String.length rest)%nat ->
            path.Ext_from (String.length dir + S k) (dir ++ ("/" ++ rest))
            = path.Ext_from k rest).
  { induction k as [|k IH]; intros Hk.
    - rewrite Nat.add_1_r. simpl.
      change (dir ++ String "/" rest) with (dir ++ "/" ++ rest).
      rewrite byte_at_separator. reflexivity.
    - rewrite Nat.add_succ_r. cbn [path.Ext_from].
      replace (byte_at (dir ++ ("/" ++ rest)) (String.length dir + S k))
        with (byte_at rest k)
        by (rewrite byte_at_append_r; reflexivity).
      rewrite IH by lia.
      replace (substring (String.length dir + S k)
                 (String.length (dir ++ ("/" ++ rest)) - (String.length dir + S k))
                 (dir ++ ("/" ++ rest)))
        with (substring k (String.length rest - k) rest).
      + reflexivity.
      + rewrite substring_append_r, length_append. cbn [String.length append substring].
        f_equal. lia. }
  apply H. lia.
Qed.

Lemma lower_byte_keeps (c d : ascii) :
  (nat_of_ascii d < 65 \/ 90 < nat_of_ascii d)%nat ->
  (nat_of_ascii d < 97 \/ 122 < nat_of_ascii d)%nat ->
  Ascii.eqb (strings.lower_byte c) d = Ascii.eqb c d.
Proof.
  intros Hup Hlow. unfold strings.lower_byte.
  destruct ((65 <=? nat_of_ascii c)%nat && (nat_of_ascii c <=? 90)%nat) eqn:E;
    [| reflexivity].
  apply andb_prop in E as [E1 E2].
  apply Nat.leb_le in E1, E2.
  transitivity false; [| symmetry]; apply Ascii.eqb_neq; intros Heq.
  - apply (f_equal nat_of_ascii) in Heq.
    rewrite nat_ascii_embedding in Heq by lia. lia.
  - subst d. lia.
Qed.

Lemma lower_byte_idem (c : ascii) :
  strings.lower_byte (strings.lower_byte c) = strings.lower_byte c.
Proof.
  assert (Hc : strings.lower_byte c
               = if ((65 <=? nat_of_ascii c)%nat && (nat_of_ascii c <=? 90)%nat)
                 then ascii_of_nat (nat_of_ascii c + 32) else c) by reflexivity.
  destruct ((65 <=? nat_of_ascii c)%nat && (nat_of_ascii c <=? 90)%nat) eqn:E;
    rewrite Hc.
  - apply andb_prop in E as [E1 E2]. apply Nat.leb_le in E1, E2.
    unfold strings.lower_byte. rewrite nat_ascii_embedding by lia.
    destruct (Nat.leb_spec (nat_of_ascii c + 32) 90); [lia |].
    rewrite andb_false_r. reflexivity.
  - unfold strings.lower_byte. rewrite E. reflexivity.
Qed.

Lemma ToLower_idem (s : string) : strings.ToLower (strings.ToLower s) = strings.ToLower s.
Proof.
  induction s as [|c s IH]; [reflexivity |]. simpl.
  rewrite lower_byte_idem, IH. reflexivity.
Qed.

Lemma ToLower_length (s : string) : String.length (strings.ToLower s) = String.length s.
Proof. induction s as [|c s IH]; simpl; [reflexivity | rewrite IH; reflexivity]. Qed.

Lemma ToLower_byte_at (s : string) (i : nat) :
  byte_at (strings.ToLower s) i = strings.lower_byte (byte_at s i).
Proof.
  revert i. induction s as [|c s IH]; intros i.
  - destruct i; reflexivity.
  - destruct i as [|i]; [reflexivity |]. simpl strings.ToLower.
    rewrite !byte_at_cons. apply IH.
Qed.

Lemma ToLower_substring (s : string) (n m : nat) :
  substring n m (strings.ToLower s) = strings.ToLower (substring n m s).
Proof.
  revert n m. induction s as [|c s IH]; intros n m.
  - destruct n, m; reflexivity.
  - destruct n as [|n]; simpl.
    + destruct m as [|m]; [reflexivity |]. simpl. rewrite IH. reflexivity.
    + apply IH.
Qed.

Lemma Ext_ToLower (p : string) : path.Ext (strings.ToLower p) = strings.ToLower (path.Ext p).
Proof.
  unfold path.Ext. rewrite ToLower_length.
  induction (String.length p) as [|n IH]; [reflexivity |]. simpl.
  rewrite ToLower_byte_at, !lower_byte_keeps by (vm_compute; lia).
  destruct (Ascii.eqb (byte_at p n) "/"); [reflexivity |].
  destruct (Ascii.eqb (byte_at p n) ".").
  - rewrite ToLower_length. apply ToLower_substring.
  - exact IH.
Qed.

End ExtFacts.

(** X13. A key without any dot has no extension and is served as
    [application/octet-stream]. *)
Theorem getContentType_no_dot (key : string) :
  strings.ContainsByte key "." = false ->
  getContentType key = "application/octet-stream".
Proof.
  intros Habs. unfold getContentType, path.Ext.
  rewrite Ext_from_no_dot by assumption. reflexivity.
Qed.

Lemma getContentType_no_dot_witness :
  getContentType "pub/README" = "application/octet-stream".
Proof. exact (getContentType_no_dot "pub/README" eq_refl). Defined.

(** X14. The content type depends on nothing before the last slash of the
    key: a dot in a directory name is not taken for an extension. *)
Theorem getContentType_last_element (dir rest : string) :
  getContentType (dir ++ "/" ++ rest) = getContentType rest.
Proof. unfold getContentType. rewrite Ext_append. reflexivity. Qed.

(** X15. The extension is matched without regard to letter case: a key in
    the ASCII range and its lower-case form have the same content type. *)
Theorem getContentType_ignores_case (key : string) :
  is_ascii key = true ->
  getContentType (strings.ToLower key) = getContentType key.
Proof.
  intros _. unfold getContentType. rewrite Ext_ToLower, ToLower_idem. reflexivity.
Qed.

Lemma getContentType_ignores_case_witness :
  getContentType "img/Logo.PNG" = "image/png".
Proof.
  rewrite <- (getContentType_ignores_case "img/Logo.PNG" eq_refl).
  vm_compute. reflexivity.
Defined.

Section FormatSizeFacts.

(** From 1024 on: the unit chosen and the text produced. *)
Lemma formatSize_unit (size : Z) :
  1024 <= size < 2 ^ 63 ->
  exists exp : nat,
    (exp <= 5)%nat /\
    1024 ^ (Z.of_nat exp + 1) <= size < 1024 * 1024 ^ (Z.of_nat exp + 1) /\
    formatSize size =
      fmt.f1 (float64.div (float64.of_int size)
                          (float64.of_int (1024 ^ (Z.of_nat exp + 1))))
      ++ " " ++ String (byte_at "KMGTPE" exp) "B".
Proof.
  intros Hsize. unfold formatSize.
  destruct (Z.ltb_spec size unit) as [Hlt | _]; [unfold unit in Hlt; lia |].
  assert (Hq : size ÷ unit = size / 1024) by (apply Z.quot_div_nonneg; lia).
  assert (Hqn : 1024 * (size / 1024) <= size) by (apply Z.mul_div_le; lia).
  assert (Hq1 : 1 <= size / 1024) by (apply Z.div_le_lower_bound; lia).
  destruct (formatSize_loop_spec (size ÷ unit) unit 0) as (k & Hk & Hlt & Hlow).
  - rewrite Hq; lia.
  - unfold unit; lia.
  - rewrite Hq; unfold unit; lia.
  - rewrite Hk; simpl Nat.add.
    rewrite Hq in Hlt, Hlow. unfold unit in *.
    assert (Hpow : 1024 * 1024 ^ Z.of_nat k = 1024 ^ (Z.of_nat k + 1))
      by (rewrite Z.pow_add_r, Z.pow_1_r by lia; ring).
    assert (Hbounds : 1024 ^ (Z.of_nat k + 1) <= size
                      < 1024 * 1024 ^ (Z.of_nat k + 1)).
    { rewrite <- Hpow.
      rewrite Z.pow_add_r, Z.pow_1_r in Hlt by lia.
      pose proof (Z.mod_pos_bound size 1024 ltac:(lia)).
      pose proof (Z.div_mod size 1024 ltac:(lia)).
      destruct Hlow as [-> | Hlow]; simpl Z.of_nat in *;
        rewrite ?Z.pow_0_r in *; nia. }
    exists k. split; [| split; [exact Hbounds |]].
    + apply pow1024_le_exp. unfold unit. lia.
    + rewrite Hpow. reflexivity.
Qed.

(** Rounding to the nearest integer stays between integer bounds. *)
Lemma round_half_even_bounds (n d a b : Z) :
  0 < d -> a * d <= n <= b * d ->
  a <= fmt.round_half_even n d <= b.
Proof.
  intros Hd [Ha Hb]. unfold fmt.round_half_even.
  pose proof (Z.div_mod n d ltac:(lia)) as Hdm.
  pose proof (Z.mod_pos_bound n d Hd) as Hr.
  assert (Hqa : a <= n / d) by (apply Z.div_le_lower_bound; lia).
  assert (Hqb : n / d <= b) by (apply Z.div_le_upper_bound; lia).
  destruct (Z.compare_spec (2 * (n mod d)) d) as [E | E | E];
    [destruct (Z.even (n / d)) | |]; try lia; nia.
Qed.

(** The unit is determined by the size. *)
Lemma pow1024_unique (size : Z) (e e' : nat) :
  1024 ^ (Z.of_nat e + 1) <= size < 1024 * 1024 ^ (Z.of_nat e + 1) ->
  1024 ^ (Z.of_nat e' + 1) <= size < 1024 * 1024 ^ (Z.of_nat e' + 1) ->
  e = e'.
Proof.
  intros [Hl Hu] [Hl' Hu'].
  assert (Hs : forall k, 1024 * 1024 ^ (Z.of_nat k + 1) = 1024 ^ (Z.of_nat k + 2)).
  { intros k.
    replace (Z.of_nat k + 2) with (1 + (Z.of_nat k + 1)) by lia.
    rewrite (Z.pow_add_r 1024 1) by lia. reflexivity. }
  rewrite Hs in Hu, Hu'.
  assert (H1 : Z.of_nat e + 1 < Z.of_nat e' + 2)
    by (apply (Z.pow_lt_mono_r_iff 1024); lia).
  assert (H2 : Z.of_nat e' + 1 < Z.of_nat e + 2)
    by (apply (Z.pow_lt_mono_r_iff 1024); lia).
  lia.
Qed.

Lemma append_assoc (a b c : string) : (a ++ b) ++ c = a ++ (b ++ c).
Proof. induction a as [|x a IH]; simpl; [reflexivity | rewrite IH; reflexivity]. Qed.

End FormatSizeFacts.

(** X16. For a size from 1024 up to [2^53], the number printed lies between
    1.0 and 1024.0: a whole part from 1 to 1024, one decimal digit, and the
    letter of the largest power of 1024 not exceeding the size. *)
Theorem formatSize_number_range (size : Z) :
  1024 <= size < 2 ^ 53 ->
  exists (exp : nat) (whole tenth : Z),
    (exp <= 5)%nat /\
    1024 ^ (Z.of_nat exp + 1) <= size < 1024 * 1024 ^ (Z.of_nat exp + 1) /\
    1 <= whole <= 1024 /\ 0 <= tenth <= 9 /\ (whole = 1024 -> tenth = 0) /\
    formatSize size =
      fmt.d whole ++ "." ++ fmt.d tenth ++ " " ++ String (byte_at "KMGTPE" exp) "B".
Proof.
  intros Hsize.
  destruct (formatSize_unit size ltac:(lia)) as (exp & Hexp & Hb & Hfmt).
  assert (Hd : 0 < 1024 ^ (Z.of_nat exp + 1)) by (apply Z.pow_pos_nonneg; lia).
  pose proof (round_half_even_bounds (10 * size) (1024 ^ (Z.of_nat exp + 1)) 10 10240
                Hd ltac:(lia)) as Ht.
  set (t := fmt.round_half_even (10 * size) (1024 ^ (Z.of_nat exp + 1))) in *.
  exists exp, (t / 10), (t mod 10).
  pose proof (Z.div_mod t 10 ltac:(lia)).
  pose proof (Z.mod_pos_bound t 10 ltac:(lia)).
  assert (Hw : 1 <= t / 10 <= 1024)
    by (split; [apply Z.div_le_lower_bound | apply Z.div_le_upper_bound]; lia).
  split; [exact Hexp |]. split; [exact Hb |]. split; [exact Hw |].
  split; [lia |]. split; [lia |].
  rewrite Hfmt, f1_quotient by (assumption || lia). cbn zeta. fold t.
  rewrite !append_assoc. reflexivity.
Qed.

Lemma formatSize_number_range_witness :
  exists (exp : nat) (whole tenth : Z),
    1 <= whole <= 1024 /\ 0 <= tenth <= 9 /\
    formatSize 123456789 =
      fmt.d whole ++ "." ++ fmt.d tenth ++ " " ++ String (byte_at "KMGTPE" exp) "B".
Proof.
  destruct (formatSize_number_range 123456789 ltac:(lia))
    as (exp & whole & tenth & _ & _ & Hw & Ht & _ & Hfmt).
  exists exp, whole, tenth. auto.
Defined.

(** X17. The rounding can reach the next unit's boundary without the unit
    changing: a size below [2^53] in the unit of exponent [exp] that is
    within a twentieth of that unit of the next power of 1024 is printed as
    ["1024.0"] with the smaller unit's letter. *)
Theorem formatSize_rounds_up_to_1024 (size : Z) (exp : nat) :
  1024 <= size < 2 ^ 53 ->
  let div := 1024 ^ (Z.of_nat exp + 1) in
  20479 * div <= 20 * size ->
  size < 1024 * div ->
  formatSize size = "1024.0 " ++ String (byte_at "KMGTPE" exp) "B".
Proof.
  cbn zeta. intros Hsize Hnear Hbelow.
  assert (Hd : 0 < 1024 ^ (Z.of_nat exp + 1)) by (apply Z.pow_pos_nonneg; lia).
  destruct (formatSize_unit size ltac:(lia)) as (exp' & Hexp & Hb & Hfmt).
  assert (exp' = exp) as -> by (apply (pow1024_unique size); [assumption | lia]).
  rewrite Hfmt, f1_quotient by (assumption || lia). cbn zeta.
  assert (Ht : fmt.round_half_even (10 * size) (1024 ^ (Z.of_nat exp + 1)) = 10240).
  { unfold fmt.round_half_even.
    set (d := 1024 ^ (Z.of_nat exp + 1)) in *.
    pose proof (Z.div_mod (10 * size) d ltac:(lia)) as Hdm.
    pose proof (Z.mod_pos_bound (10 * size) d Hd) as Hr.
    assert (Hq : 10 * size / d = 10239).
    { apply Z.le_antisymm.
      - apply Z.lt_succ_r. apply Z.div_lt_upper_bound; lia.
      - apply Z.div_le_lower_bound; lia. }
    rewrite Hq in *.
    destruct (Z.compare_spec (2 * ((10 * size) mod d)) d) as [E | E | E];
      [reflexivity | lia | reflexivity]. }
  rewrite Ht. reflexivity.
Qed.

Lemma formatSize_rounds_up_to_1024_witness :
  formatSize 1048575 = "1024.0 KB".
Proof.
  exact (formatSize_rounds_up_to_1024 1048575 0 ltac:(lia) ltac:(vm_compute; discriminate)
           ltac:(vm_compute; reflexivity)).
Defined.

(** * Further properties of the names and links in a listing *)

Section PathFacts.

Lemma substring_prefix (a b : string) : substring 0 (String.length a) (a ++ b) = a.
Proof.
  induction a as [|c a IH]; simpl.
  - destruct b; reflexivity.
  - rewrite IH. reflexivity.
Qed.

Lemma byte_at_append_l (a b : string) (i : nat) :
  (i < String.length a)%nat -> byte_at (a ++ b) i = byte_at a i.
Proof.
  revert i. induction a as [|c a IH]; intros i Hi; simpl in Hi; [lia |].
  destruct i as [|i]; [reflexivity |].
  change (String c a ++ b) with (String c (a ++ b)).
  rewrite !byte_at_cons. apply IH. lia.
Qed.

Lemma ContainsByte_head (c : ascii) (s : string) (d : ascii) :
  strings.ContainsByte (String c s) d = false ->
  Ascii.eqb c d = false /\ strings.ContainsByte s d = false.
Proof. simpl. apply orb_false_elim. Qed.

Lemma LastIndexByte_from_append (a b : string) (c : ascii) :
  forall i found,
    strings.LastIndexByte_from i (a ++ b) c found
    = strings.LastIndexByte_from (i + Z.of_nat (String.length a)) b c
        (strings.LastIndexByte_from i a c found).
Proof.
  induction a as [|d a IH]; intros i found.
  - simpl. rewrite Z.add_0_r. reflexivity.
  - change (String d a ++ b) with (String d (a ++ b)).
    cbn [strings.LastIndexByte_from String.length]. rewrite IH.
    f_equal. lia.
Qed.

(** The last slash of [a/seg] is the one before [seg]. *)
Lemma LastIndexByte_separator (a seg : string) :
  strings.ContainsByte seg "/" = false ->
  strings.LastIndexByte (a ++ "/" ++ seg) "/" = Z.of_nat (String.length a).
Proof.
  intros Hseg. unfold strings.LastIndexByte.
  rewrite LastIndexByte_from_append.
  change ("/" ++ seg) with (String "/" seg).
  cbn [strings.LastIndexByte_from]. rewrite Ascii.eqb_refl.
  rewrite LastIndexByte_from_absent by assumption. lia.
Qed.

Lemma last_byte_no_slash (a seg : string) :
  seg <> "" -> strings.ContainsByte seg "/" = false ->
  Ascii.eqb (byte_at (a ++ seg) (String.length (a ++ seg) - 1)) "/" = false.
Proof.
  intros Hne Hseg. rewrite length_append.
  assert (0 < String.length seg)%nat by (destruct seg; simpl; [congruence | lia]).
  replace (String.length a + String.length seg - 1)%nat
    with (String.length a + (String.length seg - 1))%nat by lia.
  rewrite byte_at_append_r. apply byte_at_absent; [assumption | discriminate].
Qed.

Lemma strip_slashes_none (p : string) :
  Ascii.eqb (byte_at p (String.length p - 1)) "/" = false ->
  path.strip_slashes (String.length p) p = p.
Proof.
  intros Hlast. destruct (String.length p) as [|n] eqn:Hn.
  - destruct p; [reflexivity | discriminate].
  - simpl in *. rewrite Nat.sub_0_r in Hlast. rewrite Hlast, <- Hn.
    apply substring_all.
Qed.

Lemma strip_slashes_one (p : string) :
  p <> "" ->
  Ascii.eqb (byte_at p (String.length p - 1)) "/" = false ->
  path.strip_slashes (String.length (p ++ "/")) (p ++ "/") = p.
Proof.
  intros Hne Hlast. rewrite length_append, Nat.add_1_r. cbn [path.strip_slashes].
  replace (byte_at (p ++ "/") (String.length p)) with "/"%char
    by (symmetry; apply (byte_at_separator p "")).
  rewrite Ascii.eqb_refl.
  destruct (String.length p) as [|n] eqn:Hn.
  - destruct p; [congruence | discriminate].
  - cbn [path.strip_slashes]. simpl in Hlast. rewrite Nat.sub_0_r in Hlast.
    rewrite byte_at_append_l by lia. rewrite Hlast, <- Hn.
    apply substring_prefix.
Qed.

(** The base of a path that ends in the segment [seg], with or without a
    slash behind it, is [seg]. *)
Lemma Base_last_segment (pre seg : string) :
  (pre = "" \/ exists dir, pre = dir ++ "/") ->
  seg <> "" -> strings.ContainsByte seg "/" = false ->
  path.Base (pre ++ seg) = seg /\ path.Base (pre ++ seg ++ "/") = seg.
Proof.
  intros Hpre Hne Hseg.
  assert (Hnonempty : pre ++ seg <> "").
  { intros E. destruct pre; [destruct seg; [congruence | discriminate] | discriminate]. }
  assert (Hnonempty' : pre ++ seg ++ "/" <> "").
  { intros E. destruct pre; [destruct seg; [congruence | discriminate] | discriminate]. }
  assert (Hlast : Ascii.eqb (byte_at (pre ++ seg) (String.length (pre ++ seg) - 1)) "/"
                  = false) by (apply last_byte_no_slash; assumption).
  assert (Hcore : (let p := pre ++ seg in
                   let i := strings.LastIndexByte p "/" in
                   let p' := if (0 <=? i)%Z then slice_from p (i + 1) else p in
                   if String.eqb p' "" then "/" else p') = seg).
  { cbn zeta. destruct Hpre as [-> | [dir ->]].
    - simpl append. unfold strings.LastIndexByte.
      rewrite LastIndexByte_from_absent by assumption. simpl.
      apply String.eqb_neq in Hne. rewrite Hne. reflexivity.
    - rewrite append_assoc. rewrite LastIndexByte_separator by assumption.
      destruct (Z.leb_spec 0 (Z.of_nat (String.length dir))); [| lia].
      unfold slice_from.
      replace (Z.to_nat (Z.of_nat (String.length dir) + 1))
        with (String.length (dir ++ "/") + 0)%nat
        by (rewrite length_append; simpl; lia).
      rewrite <- append_assoc, substring_append_r.
      rewrite !length_append.
      replace (String.length dir + String.length "/" + String.length seg
               - (String.length dir + String.length "/" + 0))%nat
        with (String.length seg) by lia.
      rewrite substring_all.
      apply String.eqb_neq in Hne. rewrite Hne. reflexivity. }
  split.
  - unfold path.Base.
    destruct (String.eqb_spec (pre ++ seg) "") as [E | _]; [contradiction |].
    rewrite strip_slashes_none by assumption. exact Hcore.
  - unfold path.Base.
    destruct (String.eqb_spec (pre ++ seg ++ "/") "") as [E | _]; [contradiction |].
    rewrite <- append_assoc.
    rewrite strip_slashes_one by assumption. exact Hcore.
Qed.

End PathFacts.

(** X18. The name shown for a child is the last segment of its key, for a
    file ([seg], [dir/seg]) as for a sub-directory prefix ([seg/],
    [dir/seg/]). *)
Theorem childEntry_name_last_segment (obj : ObjectInfo) (dir seg : string) :
  seg <> "" -> strings.ContainsByte seg "/" = false ->
  Key obj = seg \/ Key obj = seg ++ "/" \/
  Key obj = dir ++ "/" ++ seg \/ Key obj = dir ++ "/" ++ seg ++ "/" ->
  Name (childEntry obj) = seg.
Proof.
  intros Hne Hseg Hkey.
  assert (Hname : Name (childEntry obj) = path.Base (Key obj))
    by (unfold childEntry; destruct (String.eqb (StorageClass obj) ""); reflexivity).
  rewrite Hname.
  destruct (Base_last_segment "" seg (or_introl eq_refl) Hne Hseg) as [H1 H2].
  destruct (Base_last_segment (dir ++ "/") seg
              (or_intror (ex_intro _ dir eq_refl)) Hne Hseg) as [H3 H4].
  rewrite !append_assoc in H3, H4.
  destruct Hkey as [-> | [-> | [-> | ->]]]; assumption.
Qed.

Lemma childEntry_name_last_segment_witness :
  Name (childEntry (Fixtures.prefixInfo "a/b/")) = "b".
Proof.
  exact (childEntry_name_last_segment (Fixtures.prefixInfo "a/b/") "a" "b"
           (fun H => ltac:(discriminate H)) eq_refl
           (or_intror (or_intror (or_intror eq_refl)))).
Defined.

Section CleanFacts.

Lemma at_elem_end_append (s r : string) :
  s <> "" -> strings.ContainsByte s "/" = false -> path.at_elem_end (s ++ r) = false.
Proof.
  intros Hne Hs. destruct s as [|c s]; [congruence |].
  apply ContainsByte_head in Hs as [Hc _]. exact Hc.
Qed.

Lemma elem_bytes_append (s r : string) :
  strings.ContainsByte s "/" = false -> path.at_elem_end r = true ->
  path.elem_bytes (s ++ r) = s /\ path.elem_rest (s ++ r) = r.
Proof.
  intros Hs Hr. induction s as [|c s IH].
  - destruct r as [|d r]; [split; reflexivity |].
    simpl in *. rewrite Hr. split; reflexivity.
  - apply ContainsByte_head in Hs as [Hc Hs].
    destruct (IH Hs) as [IH1 IH2].
    change (String c s ++ r) with (String c (s ++ r)). simpl.
    rewrite Hc, IH1, IH2. split; reflexivity.
Qed.

(** One plain segment is copied to the output as it is. *)
Lemma Clean_loop_segment (seg r out : string) (dotdot : nat) :
  plain_segment seg -> path.at_elem_end r = true ->
  path.Clean_loop false (seg ++ r) out dotdot
  = path.Clean_loop false r (with_separator out ++ seg) dotdot.
Proof.
  intros (Hne & Hslash & Hdot & Hdotdot) Hr.
  destruct seg as [|c seg]; [congruence |].
  apply ContainsByte_head in Hslash as [Hc Hseg].
  change (String c seg ++ r) with (String c (seg ++ r)).
  rewrite path.Clean_loop_equation_2. rewrite Hc.
  assert (H2 : Ascii.eqb c "." && path.at_elem_end (seg ++ r) = false).
  { destruct (Ascii.eqb_spec c ".") as [-> | _]; [| reflexivity].
    apply at_elem_end_append; [| assumption]. intros ->. congruence. }
  rewrite H2.
  assert (H3 : Ascii.eqb c "." && Ascii.eqb (byte_at (seg ++ r) 0) "."
               && path.at_elem_end (path.tail (seg ++ r)) = false).
  { destruct (Ascii.eqb_spec c ".") as [-> | _]; [| reflexivity].
    destruct seg as [|d seg]; [congruence |].
    change (String d seg ++ r) with (String d (seg ++ r)).
    cbn [path.tail]. change (byte_at (String d (seg ++ r)) 0) with d.
    destruct (Ascii.eqb_spec d ".") as [-> | _]; [| reflexivity].
    apply ContainsByte_head in Hseg as [_ Hseg].
    apply at_elem_end_append; [| assumption]. intros ->. congruence. }
  rewrite H3. cbn zeta. cbn [andb negb orb].
  destruct (elem_bytes_append seg r Hseg Hr) as [-> ->].
  unfold with_separator. destruct (String.length out =? 0)%nat; reflexivity.
Qed.

Lemma Clean_loop_slash (r out : string) (dotdot : nat) :
  path.Clean_loop false ("/" ++ r) out dotdot = path.Clean_loop false r out dotdot.
Proof.
  change ("/" ++ r) with (String "/" r).
  rewrite path.Clean_loop_equation_2. reflexivity.
Qed.

Lemma join_cons (seg : string) (segs : list string) :
  segs <> [] -> join (seg :: segs) = seg ++ "/" ++ join segs.
Proof. destruct segs; [congruence | reflexivity]. Qed.

Lemma with_separator_nonempty (out seg : string) :
  seg <> "" -> with_separator (out ++ seg) = out ++ seg ++ "/".
Proof.
  intros Hne. unfold with_separator. rewrite length_append.
  destruct seg as [|c seg]; [congruence |]. simpl String.length.
  rewrite Nat.add_succ_r. cbn [Nat.eqb]. apply append_assoc.
Qed.

(** Plain segments joined by slashes, with or without a slash at the end,
    go through the loop unchanged. *)
Lemma Clean_loop_join (segs : list string) (t : string) :
  segs <> [] -> Forall plain_segment segs -> t = "" \/ t = "/" ->
  forall out dotdot,
    path.Clean_loop false (join segs ++ t) out dotdot
    = with_separator out ++ join segs.
Proof.
  intros Hne Hplain Ht.
  assert (Hend : forall out dotdot,
            path.Clean_loop false t out dotdot = out).
  { intros out dotdot. destruct Ht as [-> | ->].
    - apply path.Clean_loop_equation_1.
    - rewrite path.Clean_loop_equation_2. change (Ascii.eqb "/" "/") with true.
      cbn iota. apply path.Clean_loop_equation_1. }
  assert (Htend : path.at_elem_end t = true) by (destruct Ht as [-> | ->]; reflexivity).
  induction segs as [|seg segs IH]; [congruence |]. clear Hne.
  inversion Hplain as [|? ? Hseg Hsegs]; subst.
  destruct segs as [|seg2 segs]; intros out dotdot.
  - cbn [join]. rewrite Clean_loop_segment by assumption. apply Hend.
  - rewrite join_cons by discriminate.
    rewrite !append_assoc.
    rewrite Clean_loop_segment by (assumption || reflexivity).
    rewrite Clean_loop_slash.
    rewrite IH by (assumption || discriminate).
    rewrite with_separator_nonempty by apply Hseg.
    rewrite !append_assoc. reflexivity.
Qed.

Lemma join_nonempty (segs : list string) :
  segs <> [] -> Forall plain_segment segs ->
  exists c rest, join segs = String c rest /\ Ascii.eqb c "/" = false.
Proof.
  intros Hne Hplain. destruct segs as [|seg segs]; [congruence |].
  inversion Hplain as [|? ? (Hs & Hslash & _) _]; subst.
  destruct seg as [|c seg]; [congruence |].
  apply ContainsByte_head in Hslash as [Hc _].
  destruct segs; simpl; eauto.
Qed.

(** [path.Clean] leaves a path of plain segments as it is, and drops one
    slash behind it. *)
Lemma Clean_join (segs : list string) (t : string) :
  segs <> [] -> Forall plain_segment segs -> t = "" \/ t = "/" ->
  path.Clean (join segs ++ t) = join segs.
Proof.
  intros Hne Hplain Ht.
  destruct (join_nonempty segs Hne Hplain) as (c & rest & Hj & Hc).
  pose proof (Clean_loop_join segs t Hne Hplain Ht "" 0%nat) as Hloop.
  unfold path.Clean. rewrite Hj in *.
  change (String c rest ++ t) with (String c (rest ++ t)) in *.
  cbv beta iota zeta. rewrite Hc. rewrite Hloop. reflexivity.
Qed.

Lemma TrimSuffix_slash (p : string) : strings.TrimSuffix (p ++ "/") "/" = p.
Proof.
  unfold strings.TrimSuffix. rewrite HasSuffix_append_slash.
  rewrite length_append. simpl String.length. rewrite Nat.add_sub.
  apply substring_prefix.
Qed.

(** The parent of [dir/seg], for a clean [dir], is [dir]. *)
Lemma Dir_join (segs : list string) (seg : string) :
  segs <> [] -> Forall plain_segment segs ->
  strings.ContainsByte seg "/" = false ->
  path.Dir (join segs ++ "/" ++ seg) = join segs.
Proof.
  intros Hne Hplain Hseg. unfold path.Dir, path.Split. cbn [fst].
  rewrite LastIndexByte_separator by assumption.
  unfold slice_to.
  replace (Z.to_nat (Z.of_nat (String.length (join segs)) + 1))
    with (String.length (join segs ++ "/"))
    by (rewrite length_append; simpl; lia).
  rewrite <- append_assoc, substring_prefix.
  apply Clean_join; auto.
Qed.

End CleanFacts.

(** X19. Below the top level the parent row leads one level up: for a
    prefix [s1/.../sn/seg/] of plain segments, the target of [..] is
    [/s1/.../sn/], and a request for it lists the prefix [s1/.../sn/]. *)
Theorem parentEntry_of_nested_prefix (segs : list string) (seg : string) :
  segs <> [] -> Forall plain_segment segs ->
  strings.ContainsByte seg "/" = false ->
  let prefix := join segs ++ "/" ++ seg ++ "/" in
  URL (parentEntry prefix) = "/" ++ join segs ++ "/" /\
  normalizePrefix (strings.TrimPrefix (URL (parentEntry prefix)) "/")
    = join segs ++ "/".
Proof.
  intros Hne Hplain Hseg. cbn zeta.
  assert (Hurl : URL (parentEntry (join segs ++ "/" ++ seg ++ "/"))
                 = "/" ++ join segs ++ "/").
  { unfold parentEntry; cbn [URL].
    replace (join segs ++ "/" ++ seg ++ "/") with ((join segs ++ "/" ++ seg) ++ "/")
      by (rewrite !append_assoc; reflexivity).
    rewrite TrimSuffix_slash, Dir_join by assumption. reflexivity. }
  split; [exact Hurl |].
  rewrite Hurl, TrimPrefix_slash.
  apply normalizePrefix_fixed; [apply HasSuffix_append_slash |].
  destruct (join_nonempty segs Hne Hplain) as (c & rest & -> & _).
  destruct rest; discriminate.
Qed.

Lemma parentEntry_of_nested_prefix_witness :
  URL (parentEntry "pub/img/icons/") = "/pub/img/".
Proof.
  assert (Hplain : Forall plain_segment ["pub"; "img"]).
  { repeat constructor; discriminate. }
  exact (proj1 (parentEntry_of_nested_prefix ["pub"; "img"] "icons"
                  ltac:(discriminate) Hplain eq_refl)).
Defined.

(** * Further properties of a served file and of a failing listing *)

Section ServeFacts.

Lemma body_bytes_app (a b : list Chunk) :
  body_bytes (a ++ b) = body_bytes a ++ body_bytes b.
Proof.
  induction a as [|[data | P E] a IH]; simpl; [reflexivity | | exact IH].
  rewrite IH. symmetry. apply append_assoc.
Qed.

Lemma append_empty_r (a : string) : a ++ "" = a.
Proof. induction a as [|c a IH]; simpl; [reflexivity | rewrite IH; reflexivity]. Qed.

Lemma first_error_stops (pre post : list ObjectInfo) (bad : ObjectInfo) (e : error) :
  Err bad = Some e ->
  first_error (pre ++ bad :: post) = first_error (pre ++ [bad]).
Proof.
  intros Hbad. induction pre as [|obj pre IH]; simpl.
  - rewrite Hbad. reflexivity.
  - destruct (Err obj); [reflexivity | exact IH].
Qed.

End ServeFacts.

(** X20. When the store delivers the object without a read error and the
    connection works, the request adds exactly the object's bytes to the
    body, logs nothing and ends with status 200. *)
Theorem handler_serves_object_bytes
    (minioClient : Client) (requestPath : string) (s : World)
    (objInfo : ObjectInfo) (object : Object) :
  let key := strings.TrimPrefix requestPath "/" in
  StatObject minioClient bucket key = (objInfo, None) ->
  ContentType objInfo <> dirContentType ->
  GetObject minioClient bucket key = inl object ->
  obj_err object = None ->
  rw_broken (resp s) = None ->
  let s' := snd (handler minioClient requestPath s) in
  body_bytes (rw_body (resp s')) = body_bytes (rw_body (resp s)) ++ obj_bytes object /\
  logs s' = logs s /\
  (rw_status (resp s) = None -> final_status (resp s') = 200).
Proof.
  cbn zeta. intros Hstat Hct Hget Herr Hconn.
  destruct (handleFile_served minioClient _ s objInfo object Hstat Hct Hget)
    as (Hhit & _ & Hlogs & Hbody & _ & Hstatus).
  rewrite (handler_file_hit minioClient requestPath s Hhit). cbn [snd].
  rewrite Hbody, Hlogs, body_bytes_app.
  unfold copied, copy_error. rewrite Hconn, Herr.
  destruct (String.eqb_spec (obj_bytes object) "") as [E | _];
    rewrite !app_nil_r; (split; [| split; [reflexivity | exact Hstatus]]).
  - rewrite E. reflexivity.
  - cbn [body_bytes]. rewrite append_empty_r. reflexivity.
Qed.

Lemma handler_serves_object_bytes_witness :
  body_bytes (rw_body (resp (snd (handler Fixtures.ambiguous "/a/b" (fresh_world None)))))
  = "hello".
Proof.
  exact (proj1 (handler_serves_object_bytes Fixtures.ambiguous "/a/b" (fresh_world None)
                  (Fixtures.fileInfo "a/b" 5 100)
                  {| obj_bytes := "hello"; obj_err := None |}
                  eq_refl (fun H => ltac:(discriminate H)) eq_refl eq_refl eq_refl)).
Defined.

(** X21. What a listing delivers behind its first error is never looked at:
    the loop gives the same result, and logs the same line, as on the
    listing cut off behind the failing item. *)
Theorem handleDirectory_loop_stops_at_error
    (prefix : string) (pre post : list ObjectInfo) (bad : ObjectInfo) (e : error)
    (entries : list DirEntry) (hasContent : bool) (s : World) :
  Err bad = Some e ->
  handleDirectory_loop prefix (pre ++ bad :: post) entries hasContent s
  = handleDirectory_loop prefix (pre ++ [bad]) entries hasContent s /\
  fst (handleDirectory_loop prefix (pre ++ bad :: post) entries hasContent s) = None.
Proof.
  intros Hbad.
  rewrite !handleDirectory_loop_spec.
  rewrite (first_error_stops pre post bad e Hbad).
  destruct (first_error_In (pre ++ [bad]) bad e) as [e0 He0];
    [apply in_or_app; right; left; reflexivity | exact Hbad |].
  rewrite He0. split; reflexivity.
Qed.

Lemma handleDirectory_loop_stops_at_error_witness :
  handleDirectory_loop "d/" (ListObjects Fixtures.flaky bucket "d/" false) [] false
    (fresh_world None)
  = handleDirectory_loop "d/"
      [Fixtures.fileInfo "d/x" 1 1; Fixtures.errInfo Fixtures.ioError] [] false
      (fresh_world None).
Proof.
  exact (proj1 (handleDirectory_loop_stops_at_error "d/"
                  [Fixtures.fileInfo "d/x" 1 1] [Fixtures.fileInfo "d/y" 2 2]
                  (Fixtures.errInfo Fixtures.ioError) Fixtures.ioError
                  [] false (fresh_world None) eq_refl)).
Defined.

(** * The order of the rows and the target of the parent row *)

(** C7. For a listing that is rendered (no error, at least one item): below
    a prefix other than the root the entries are the single parent entry
    [..], followed by the children in the order of the listing. The target
    of [..] is ["/"], the parent of the slash-trimmed prefix and ["/"]: for a
    prefix [s1/.../sn/seg/] of plain segments that is [/s1/.../sn/], the
    enclosing prefix; for a prefix of one segment it is [/./]. At the root
    there is no parent entry and every listed key is a child. *)
Theorem handleDirectory_entry_order
    (minioClient : Client) (key : string) (s : World) :
  let prefix := normalizePrefix key in
  let ch := ListObjects minioClient bucket prefix false in
  let s1 := {| resp := resp s; logs := logs s;
               calls := (calls s ++ [CallListObjects bucket prefix false])%list |} in
  let kids := map childEntry
                (filter (fun obj => negb (String.eqb (Key obj) prefix)) ch) in
  ch <> [] ->
  Forall (fun obj => Err obj = None) ch ->
  (prefix <> "" ->
     let parent :=
       {| URL := "/" ++ path.Dir (strings.TrimSuffix prefix "/") ++ "/";
          Name := ".."; Size := "-"; ModTime := Time_zero; IsDir := true;
          Icon_ := IconDir |} in
     handleDirectory minioClient key s
       = (true, rendered ("/" ++ prefix) (parent :: kids) s1) /\
     (rw_broken (resp s) = None ->
      rw_body (resp (snd (handleDirectory minioClient key s)))
        = (rw_body (resp s) ++ [Listing ("/" ++ prefix) (parent :: kids)])%list) /\
     (forall segs seg,
        segs <> [] -> Forall plain_segment segs ->
        strings.ContainsByte seg "/" = false ->
        prefix = join segs ++ "/" ++ seg ++ "/" ->
        URL parent = "/" ++ join segs ++ "/" /\
        normalizePrefix (strings.TrimPrefix (URL parent) "/") = join segs ++ "/") /\
     (strings.ContainsByte (strings.TrimSuffix prefix "/") "/" = false ->
      URL parent = "/./")) /\
  (prefix = "" ->
     (key = "" \/ key = "/") /\
     handleDirectory minioClient key s = (true, rendered "/" kids s1) /\
     (Forall (fun obj => Key obj <> "") ch -> kids = map childEntry ch) /\
     (rw_broken (resp s) = None ->
      rw_body (resp (snd (handleDirectory minioClient key s)))
        = (rw_body (resp s) ++ [Listing "/" kids])%list)).
Proof.
  cbn zeta. intros Hne Hok.
  pose proof (handleDirectory_renders minioClient key s Hne Hok) as Hspec.
  cbn zeta in Hspec. unfold children, is_child, parentEntries in Hspec.
  set (prefix := normalizePrefix key) in *.
  set (ch := ListObjects minioClient bucket prefix false) in *.
  split.
  - intros Hp. apply String.eqb_neq in Hp. rewrite Hp in Hspec.
    split; [exact Hspec | split; [| split]].
    + intros Hb. rewrite Hspec. cbn [snd]. rewrite rendered_body by exact Hb. reflexivity.
    + intros segs seg Hsegs Hplain Hseg Hprefix. cbn [URL].
      assert (Hdir : path.Dir (strings.TrimSuffix prefix "/") = join segs).
      { rewrite Hprefix.
        replace (join segs ++ "/" ++ seg ++ "/") with ((join segs ++ "/" ++ seg) ++ "/")
          by (rewrite !append_assoc; reflexivity).
        rewrite TrimSuffix_slash. apply Dir_join; assumption. }
      rewrite Hdir. split; [reflexivity |].
      rewrite TrimPrefix_slash.
      apply normalizePrefix_fixed; [apply HasSuffix_append_slash |].
      destruct (join_nonempty segs Hsegs Hplain) as (c & rest & -> & _).
      destruct rest; discriminate.
    + intros Hseg. cbn [URL]. rewrite (Dir_single_segment _ Hseg). reflexivity.
  - intros Hp.
    replace (String.eqb prefix "") with true in Hspec
      by (symmetry; apply String.eqb_eq; exact Hp).
    cbn [app] in Hspec. rewrite Hp in Hspec at 1.
    split; [| split; [| split]].
    + apply normalizePrefix_root. exact Hp.
    + exact Hspec.
    + intros Hkeys. f_equal. rewrite Hp. clear Hspec Hok Hne.
      induction Hkeys as [|o l Ho _ IH]; [reflexivity |]. simpl.
      apply String.eqb_neq in Ho. rewrite Ho; simpl. f_equal. exact IH.
    + intros Hb. rewrite Hspec. cbn [snd]. rewrite rendered_body by exact Hb. reflexivity.
Qed.

(** The witness of C7: the listing of [pub/img/icons/]; its parent row leads
    to [/pub/img/]. *)
Lemma handleDirectory_entry_order_witness :
  rw_body (resp (snd (handleDirectory Fixtures.nested "pub/img/icons" (fresh_world None))))
  = [Listing "/pub/img/icons/"
       [{| URL := "/pub/img/"; Name := ".."; Size := "-"; ModTime := Time_zero;
           IsDir := true; Icon_ := IconDir |};
        {| URL := "/pub/img/icons/a.png"; Name := "a.png"; Size := "2.0 KB";
           ModTime := 7; IsDir := false; Icon_ := IconFile |}]] /\
  "/" ++ path.Dir (strings.TrimSuffix (normalizePrefix "pub/img/icons") "/") ++ "/"
  = "/pub/img/".
Proof.
  assert (Hok : Forall (fun obj => Err obj = None)
                  (ListObjects Fixtures.nested bucket
                     (normalizePrefix "pub/img/icons") false))
    by (repeat constructor).
  assert (Hne : ListObjects Fixtures.nested bucket
                  (normalizePrefix "pub/img/icons") false <> [])
    by discriminate.
  assert (Hplain : Forall plain_segment ["pub"; "img"])
    by (repeat constructor; discriminate).
  destruct (handleDirectory_entry_order Fixtures.nested "pub/img/icons"
              (fresh_world None) Hne Hok) as [Hnonroot _].
  destruct (Hnonroot ltac:(discriminate)) as (_ & Hbody & Hparent & _).
  split.
  - rewrite (Hbody eq_refl). vm_compute. reflexivity.
  - exact (proj1 (Hparent ["pub"; "img"] "icons" ltac:(discriminate) Hplain
                    eq_refl eq_refl)).
Defined.
